(** * Anime recommendation engine (animeml.py): model and properties

    A shallow embedding of the engine of [animeml.py]: the record
    normalizer [create_tags], the title index ([title_to_index],
    [title_to_index_lower]) and the query functions [recommend] and
    [search_titles].

    Conventions of the model.
    - Text is [string] (ASCII characters); [lower], [split_ws] and the
      year pattern follow Python's [str.lower], [str.split] and [re] on
      ASCII text.  [int] and [float] applied to text are parameters of
      the normalizer.  Title, genre, type, source, studio and aired are
      columns of strings.
    - A finite float is the rational it denotes, so comparisons are exact.
    - A pandas [Series] is the list of its (label, value) entries, labels
      possibly repeated.
    - The similarity matrix [sim] is computed by library code
      ([TfidfVectorizer], [cosine_similarity]); the engine takes it as
      given data, one entry per pair of rows.  [cosine_similarity] itself
      is modelled over the reals on given feature rows.
    - A call returns [Ok] with its value or the exception that escapes. *)

From Stdlib Require Import List String Ascii Bool Arith ZArith QArith Lia.
From Stdlib Require Import Permutation Sorted OrderedTypeEx.
From Stdlib Require Import Reals Lra Psatz.
Import ListNotations.

Local Close Scope R_scope.
Local Close Scope Q_scope.
Local Open Scope string_scope.
Local Open Scope list_scope.
Local Open Scope nat_scope.

(** ** Python strings *)

Module PyStr.

(** [str.isspace] on an ASCII character: tab, LF, VT, FF, CR, the four
    separators 0x1c-0x1f and the space. *)
Definition is_space (c : ascii) : bool :=
  let n := nat_of_ascii c in
  ((9 <=? n) && (n <=? 13)) || ((28 <=? n) && (n <=? 31)) || (n =? 32).

Definition is_upper (c : ascii) : bool :=
  let n := nat_of_ascii c in (65 <=? n) && (n <=? 90).

Definition is_alpha_lower (c : ascii) : bool :=
  let n := nat_of_ascii c in (97 <=? n) && (n <=? 122).

Definition is_digit (c : ascii) : bool :=
  let n := nat_of_ascii c in (48 <=? n) && (n <=? 57).

(** A word character of [re] ([\w]): letter, digit or underscore. *)
Definition is_word (c : ascii) : bool :=
  is_upper c || is_alpha_lower c || is_digit c || (nat_of_ascii c =? 95).

Definition lower_char (c : ascii) : ascii :=
  if is_upper c then ascii_of_nat (nat_of_ascii c + 32) else c.

(** [s.lower()] *)
Fixpoint lower (s : string) : string :=
  match s with
  | EmptyString => EmptyString
  | String c s' => String (lower_char c) (lower s')
  end.

(** [s.replace(old, new)] for single characters. *)
Fixpoint replace_char (old new : ascii) (s : string) : string :=
  match s with
  | EmptyString => EmptyString
  | String c s' =>
      String (if Ascii.eqb c old then new else c) (replace_char old new s')
  end.

Definition starts_word (s : string) : bool :=
  match s with
  | EmptyString => false
  | String c _ => negb (is_space c)
  end.

(** [s.split()]: the maximal runs of non-space characters, in order. *)
Fixpoint split_ws (s : string) : list string :=
  match s with
  | EmptyString => []
  | String c s' =>
      if is_space c then split_ws s'
      else if starts_word s' then
        match split_ws s' with
        | w :: ws => String c w :: ws
        | [] => [String c EmptyString]
        end
      else String c EmptyString :: split_ws s'
  end.

(** [sep.join(parts)] *)
Fixpoint join (sep : string) (parts : list string) : string :=
  match parts with
  | [] => EmptyString
  | [p] => p
  | p :: ps => p ++ sep ++ join sep ps
  end.

(** [needle in hay] on strings: [needle] occurs as a substring. *)
Fixpoint contains (hay needle : string) : bool :=
  String.prefix needle hay ||
  match hay with
  | EmptyString => false
  | String _ hay' => contains hay' needle
  end.

Definition digit_val (c : ascii) : Z := Z.of_nat (nat_of_ascii c - 48).

End PyStr.
Import PyStr.

(** ** Table cells *)

(** A Python float: finite (its exact value), an infinity, or NaN. *)
Inductive flt : Type :=
| Fin (q : Q)
| PosInf
| NegInf
| FNaN.

(** A cell of a column that may hold numbers: missing ([None]/NaN), an
    integer (int64), a float, or text (object column). *)
Inductive cell : Type :=
| CNull
| CInt (z : Z)
| CFloat (x : flt)
| CText (s : string).

(** [pd.notna(v)] *)
Definition notna (c : cell) : bool :=
  match c with
  | CNull => false
  | CFloat FNaN => false
  | _ => true
  end.

(** [x >= c] for a float [x] and a finite constant [c]. *)
Definition flt_geb (x : flt) (c : Q) : bool :=
  match x with
  | Fin q => Qle_bool c q
  | PosInf => true
  | NegInf => false
  | FNaN => false
  end.

(** One dataset record.  A text field is [None] when the value is missing
    (or, for the optional columns, when the column does not exist). *)
Record Row : Type := mkRow {
  title : option string;
  genre : option string;
  type_ : option string;
  source : option string;
  studio : option string;
  score : cell;
  episodes : cell;
  aired : option string
}.

(** ** Record normalizer: [create_tags] *)

Section Normalizer.

(** [int(s)] and [float(s)] on text, [None] when Python raises.  Their
    grammars belong to the language, not to this program. *)
Variable int_of_text : string -> option Z.
Variable float_of_text : string -> option flt.

(** [int(v)], [None] when it raises (swallowed by the bare [except]). *)
Definition py_int (c : cell) : option Z :=
  match c with
  | CNull => None
  | CInt z => Some z
  | CFloat (Fin q) => Some (Z.quot (Qnum q) (Zpos (Qden q)))
  | CFloat _ => None
  | CText s => int_of_text s
  end.

(** [float(v)], [None] when it raises: an integer too large for a float
    is an [OverflowError].  A converted integer is kept exact: rounding it
    to a float does not move it across 6, 7 or 8. *)
Definition py_float (c : cell) : option flt :=
  match c with
  | CNull => None
  | CInt z =>
      if (Z.abs z <? 2 ^ 1024 - 2 ^ 970)%Z then Some (Fin (inject_Z z))
      else None
  | CFloat x => Some x
  | CText s => float_of_text s
  end.

Definition tags_title (row : Row) (tags : list string) : list string :=
  match title row with
  | Some t => tags ++ [t; t; t]
  | None => tags
  end.

Definition tags_genre (row : Row) (tags : list string) : list string :=
  match genre row with
  | Some g =>
      let genres := split_ws (replace_char "," " " g) in
      tags ++ (genres ++ genres)
  | None => tags
  end.

Definition tags_type (row : Row) (tags : list string) : list string :=
  match type_ row with
  | Some t => tags ++ [t]
  | None => tags
  end.

Definition tags_source (row : Row) (tags : list string) : list string :=
  match source row with
  | Some s => tags ++ [s]
  | None => tags
  end.

Definition tags_studio (row : Row) (tags : list string) : list string :=
  match studio row with
  | Some s => tags ++ [replace_char "," " " s]
  | None => tags
  end.

Definition tags_score (row : Row) (tags : list string) : list string :=
  if notna (score row) then
    match py_float (score row) with
    | Some sc =>
        if flt_geb sc 8%Q then tags ++ ["highly_rated"]
        else if flt_geb sc 7%Q then tags ++ ["well_rated"]
        else if flt_geb sc 6%Q then tags ++ ["decent_rated"]
        else tags
    | None => tags
    end
  else tags.

Definition tags_episodes (row : Row) (tags : list string) : list string :=
  if notna (episodes row) then
    match py_int (episodes row) with
    | Some eps =>
        if (eps =? 1)%Z then tags ++ ["movie_format"]
        else if (eps <=? 13)%Z then tags ++ ["short_series"]
        else if (eps <=? 26)%Z then tags ++ ["standard_series"]
        else tags ++ ["long_series"]
    | None => tags
    end
  else tags.

(** The pattern [(19\d{2}|20\d{2})\b] tried at the head of [s]. *)
Definition year_here (s : string) : option Z :=
  match s with
  | String c1 (String c2 (String c3 (String c4 rest))) =>
      if ((Ascii.eqb c1 "1" && Ascii.eqb c2 "9")
          || (Ascii.eqb c1 "2" && Ascii.eqb c2 "0"))
         && is_digit c3 && is_digit c4
         && match rest with
            | EmptyString => true
            | String c5 _ => negb (is_word c5)
            end
      then Some (1000 * digit_val c1 + 100 * digit_val c2
                 + 10 * digit_val c3 + digit_val c4)%Z
      else None
  | _ => None
  end.

(** [int(re.findall(r'\b(19\d{2}|20\d{2})\b', s)[0])]: the leftmost match;
    [after_word] tells whether the previous character is a word character,
    in which case there is no boundary here. *)
Fixpoint first_year (after_word : bool) (s : string) : option Z :=
  match s with
  | EmptyString => None
  | String c s' =>
      match (if after_word then None else year_here s) with
      | Some y => Some y
      | None => first_year (is_word c) s'
      end
  end.

Definition tags_era (row : Row) (tags : list string) : list string :=
  match aired row with
  | Some year_str =>
      match first_year false year_str with
      | Some year =>
          if (2020 <=? year)%Z then tags ++ ["recent_anime"]
          else if (2010 <=? year)%Z then tags ++ ["modern_era"]
          else if (2000 <=? year)%Z then tags ++ ["early_2000s"]
          else tags ++ ["classic_anime"]
      | None => tags
      end
  | None => tags
  end.

(** The list [tags] at the end of [create_tags]. *)
Definition tag_list (row : Row) : list string :=
  tags_era row
    (tags_episodes row
      (tags_score row
        (tags_studio row
          (tags_source row
            (tags_type row
              (tags_genre row
                (tags_title row []))))))).

Definition create_tags (row : Row) : string := join " " (tag_list row).

(** Number of times [tok] occurs among the whitespace-separated tokens
    of a tag string. *)
Definition occurrences (tok : string) (tag_string : string) : nat :=
  count_occ string_dec (split_ws tag_string) tok.

End Normalizer.

(** ** Title index *)

(** A pandas [Series] of row numbers labelled by titles: its entries in
    order, labels possibly repeated, a missing title as [None]. *)
Definition Series : Type := list (option string * nat).

Definition label_is (k : string) (e : option string * nat) : bool :=
  match fst e with
  | Some t => String.eqb t k
  | None => false
  end.

(** [pd.Series(df.index, index=labels)], [df.index] being [start, start+1, ...]
    (0, 1, ... for the whole table). *)
Fixpoint make_series (start : nat) (labels : list (option string)) : Series :=
  match labels with
  | [] => []
  | l :: ls => (l, start) :: make_series (S start) ls
  end.

(** [Series.drop_duplicates()]: an entry is dropped when its VALUE already
    occurred in an earlier entry (keep='first'); labels play no part. *)
Fixpoint drop_duplicates_from (seen : list nat) (s : Series) : Series :=
  match s with
  | [] => []
  | (l, v) :: s' =>
      if existsb (Nat.eqb v) seen then drop_duplicates_from seen s'
      else (l, v) :: drop_duplicates_from (v :: seen) s'
  end.

Definition drop_duplicates (s : Series) : Series := drop_duplicates_from [] s.

(** [key in series]: membership among the labels. *)
Definition series_contains (s : Series) (k : string) : bool :=
  existsb (label_is k) s.

(** The values stored under label [k], in order. *)
Definition values_at (s : Series) (k : string) : list nat :=
  map snd (filter (label_is k) s).

(** What [series[key]] evaluates to: a scalar when the label occurs once,
    a sub-series of two or more values when it is repeated. *)
Inductive Lookup : Type :=
| Scalar (i : nat)
| Rows (i j : nat) (rest : list nat).

Definition lookup_of (vs : list nat) : option Lookup :=
  match vs with
  | [] => None
  | [i] => Some (Scalar i)
  | i :: j :: rest => Some (Rows i j rest)
  end.

(** [series[key]]; [None] stands for [KeyError]. *)
Definition series_get (s : Series) (k : string) : option Lookup :=
  lookup_of (values_at s k).

(** ** Engine *)

(** The state built at import time: the table [df] (of which [metadata]
    is a projection, row for row) and the similarity matrix, [sim i j]
    being entry (i,j) for rows [i], [j] of [df]. *)
Record Engine : Type := mkEngine {
  df : list Row;
  sim : nat -> nat -> Q
}.

Definition titles (eng : Engine) : list (option string) := map title (df eng).

Definition title_to_index (eng : Engine) : Series :=
  drop_duplicates (make_series 0 (titles eng)).

Definition title_to_index_lower (eng : Engine) : Series :=
  drop_duplicates (make_series 0 (map (option_map lower) (titles eng))).

(** Lines 148-153 of [recommend]: [None] is [index is None]. *)
Definition resolve (eng : Engine) (title : string) : option Lookup :=
  if series_contains (title_to_index eng) title then
    series_get (title_to_index eng) title
  else if series_contains (title_to_index_lower eng) (lower title) then
    series_get (title_to_index_lower eng) (lower title)
  else None.

(** ** Similarity index *)





(** ** Sorting the distances *)

(** [list.sort(reverse=True, key=lambda x: x[1])] is stable: entries are
    ordered by decreasing key and entries with equal keys keep their
    relative order.  [insert_desc x l] puts [x], which came before every
    entry of [l], in front of the first entry whose key is not larger. *)
Fixpoint insert_desc (x : nat * Q) (l : list (nat * Q)) : list (nat * Q) :=
  match l with
  | [] => [x]
  | y :: l' =>
      if Qle_bool (snd y) (snd x) then x :: y :: l'
      else y :: insert_desc x l'
  end.

Fixpoint sort_desc (l : list (nat * Q)) : list (nat * Q) :=
  match l with
  | [] => []
  | x :: l' => insert_desc x (sort_desc l')
  end.

(** [list(enumerate(sim[index]))] *)
Definition enumerate_row (eng : Engine) (index : nat) : list (nat * Q) :=
  map (fun j => (j, sim eng index j)) (seq 0 (List.length (df eng))).

(** [distances] after the sort. *)
Definition distances (eng : Engine) (index : nat) : list (nat * Q) :=
  sort_desc (enumerate_row eng index).

(** ** recommend *)

(** The integer nearest to [n / d] (for [d > 0]), ties to the even one. *)
Definition round_half_even (n d : Z) : Z :=
  let fl := (n / d)%Z in
  let r := (n mod d)%Z in
  match (2 * r ?= d)%Z with
  | Lt => fl
  | Gt => (fl + 1)%Z
  | Eq => if Z.even fl then fl else (fl + 1)%Z
  end.

(** The multiple of 1/10000 nearest to [x], ties to even: the decimal
    that [round(x, 4)] rounds the exact value of the float to. *)
Definition decimal4 (x : Q) : Q :=
  Qmake (round_half_even (Qnum x * 10000) (Zpos (Qden x))) 10000.

(** The [e] with [2^e <= a / d < 2^(e+1)], for positive [a] and [d]. *)
Definition binary_exponent (a d : Z) : Z :=
  let l := (Z.log2 a - Z.log2 d)%Z in
  if (if (0 <=? l)%Z then (d * 2 ^ l <=? a)%Z else (d <=? a * 2 ^ (- l))%Z)
  then l else (l - 1)%Z.

(** The float64 nearest to the rational [q] (ties to the even
    significand), as the rational it denotes: 53 significant bits, the
    last place no finer than 2^-1074.  [q] is within the range of the
    finite floats. *)
Definition nearest_double (q : Q) : Q :=
  let n := Qnum q in
  let d := Zpos (Qden q) in
  if (n =? 0)%Z then Qmake 0 1
  else
    let a := Z.abs n in
    let s := Z.max (binary_exponent a d - 52) (-1074) in
    let m := if (0 <=? s)%Z then round_half_even a (d * 2 ^ s)
             else round_half_even (a * 2 ^ (- s)) d in
    if (0 <=? s)%Z then Qmake (Z.sgn n * m * 2 ^ s) 1
    else Qmake (Z.sgn n * m) (Z.to_pos (2 ^ (- s))).

(** [round(x, 4)] on a float: the float nearest to the 4-decimal value. *)
Definition round4 (x : Q) : Q := nearest_double (decimal4 x).

(** A recommendation dictionary.  The four optional keys are present
    exactly when the value is not missing. *)
Record Rec : Type := mkRec {
  rec_title : option string;
  rec_genre : option string;
  rec_type : option string;
  rec_source : option string;
  rec_similarity : Q;
  rec_score : option cell;
  rec_episodes : option cell;
  rec_aired : option string;
  rec_studio : option string
}.

Definition present (c : cell) : option cell :=
  if notna c then Some c else None.

Definition make_rec (row : Row) (score_ : Q) : Rec :=
  mkRec (title row) (genre row) (type_ row) (source row)
        (round4 score_)
        (present (score row)) (present (episodes row))
        (aired row) (studio row).

(** Outcome of a call: a list, or the exception that escapes. *)
Inductive Result (A : Type) : Type :=
| Ok (v : A)
| ValueError
| IndexError.
Arguments Ok {A} v.
Arguments ValueError {A}.
Arguments IndexError {A}.

Definition title_eq_dec : forall a b : option string, {a = b} + {a <> b}.
Proof. decide equality. apply string_dec. Defined.

(** [anime_title in seen_titles]; a missing title is the one shared NaN
    object of the column, which a set finds again by identity. *)
Definition seen (t : option string) (seen_titles : list (option string)) : bool :=
  if in_dec title_eq_dec t seen_titles then true else false.

(** The [for] loop of [recommend] over the remaining [distances].  Each
    emitted dictionary is paired with the row number it was built from. *)
Fixpoint recommend_loop (eng : Engine) (index : nat) (top_n : Z)
    (dists : list (nat * Q)) (seen_titles : list (option string))
    (recommendations : list (nat * Rec)) : Result (list (nat * Rec)) :=
  match dists with
  | [] => Ok recommendations
  | (idx, score_) :: rest =>
      if idx =? index then
        recommend_loop eng index top_n rest seen_titles recommendations
      else
        match nth_error (df eng) idx with
        | None => IndexError
        | Some row =>
            let anime_title := title row in
            if seen anime_title seen_titles then
              recommend_loop eng index top_n rest seen_titles recommendations
            else
              let seen_titles' := anime_title :: seen_titles in
              let recommendations' :=
                recommendations ++ [(idx, make_rec row score_)] in
              if (Z.of_nat (List.length recommendations') =? top_n)%Z then
                Ok recommendations'
              else
                recommend_loop eng index top_n rest seen_titles' recommendations'
        end
  end.

(** The emitted dictionaries with their row numbers, for a resolved row. *)
Definition recommend_rows (eng : Engine) (index : nat) (top_n : Z)
    : Result (list (nat * Rec)) :=
  recommend_loop eng index top_n (distances eng index) [] [].

Definition result_map {A B : Type} (f : A -> B) (r : Result A) : Result B :=
  match r with
  | Ok v => Ok (f v)
  | ValueError => ValueError
  | IndexError => IndexError
  end.

(** [recommend(title, top_n)].  When the label is repeated, [index] is a
    sub-series of at least two rows and [sim[index]] a block of as many
    rows of [sim]: [list.sort] compares two of these rows with [<], and the
    truth value of the resulting boolean array is ambiguous
    ([ValueError]) as soon as the table has more than one row, which it
    has; the test [idx == index] of the loop would fail the same way. *)
Definition recommend (eng : Engine) (title : string) (top_n : Z)
    : Result (list Rec) :=
  match resolve eng title with
  | None => Ok []
  | Some (Scalar index) => result_map (map snd) (recommend_rows eng index top_n)
  | Some (Rows _ _ _) => ValueError
  end.

(** ** search_titles *)

(** The loop of [search_titles] over the remaining non-null titles. *)
Fixpoint search_loop (query_lower : string) (limit : Z)
    (ts : list string) (matches : list string) : list string :=
  match ts with
  | [] => matches
  | t :: rest =>
      if contains (lower t) query_lower then
        let matches' := matches ++ [t] in
        if (Z.of_nat (List.length matches') >=? limit)%Z then matches'
        else search_loop query_lower limit rest matches'
      else search_loop query_lower limit rest matches
  end.

(** [df['title'].dropna().values] *)
Fixpoint dropna (ts : list (option string)) : list string :=
  match ts with
  | [] => []
  | Some t :: rest => t :: dropna rest
  | None :: rest => dropna rest
  end.

Definition search_titles (eng : Engine) (query : string) (limit : Z)
    : list string :=
  search_loop (lower query) limit (dropna (titles eng)) [].

(** ** get_random *)

(** [min(max(lo, x), hi)] *)
Definition clamp (lo hi x : Z) : Z := Z.min (Z.max lo x) hi.

(** The entries of [xs] at the given positions, in that order. *)
Definition take_positions {A : Type} (xs : list A) (ps : list nat) : list A :=
  flat_map (fun p => match nth_error xs p with
                     | Some x => [x]
                     | None => []
                     end) ps.

Section Sampling.

(** The random generator behind [Series.sample]: [choice size n] is the
    list of [n] positions it draws, without replacement, among [size]. *)
Variable choice : nat -> nat -> list nat.

(** [series.sample(n=n)]: a larger sample than the population is a
    [ValueError]. *)
Definition sample {A : Type} (xs : list A) (n : nat) : Result (list A) :=
  if List.length xs <? n then ValueError
  else Ok (take_positions xs (choice (List.length xs) n)).

(** [get_random(count)] of animeml.py. *)
Definition get_random (eng : Engine) (count : Z) : Result (list string) :=
  let count := clamp 1 50 count in
  sample (dropna (titles eng)) (Z.to_nat count).

(** The payload of the [/random] handler of app.py: [count] and [titles]. *)
Definition random_anime (eng : Engine) (count : Z)
    : Result (nat * list string) :=
  let count := clamp 1 20 count in
  match sample (dropna (titles eng)) (Z.to_nat count) with
  | Ok random_titles => Ok (List.length random_titles, random_titles)
  | ValueError => ValueError
  | IndexError => IndexError
  end.

End Sampling.

(** ** HTTP handlers (app.py) *)

(** A handler is modelled by the dictionary it hands to [jsonify] and the
    status code it returns with it.  A query parameter is [None] when
    absent; an integer parameter arrives already converted (with its
    default) by [request.args.get(..., type=int)]. *)

(** [/recommend] *)
Inductive RecommendResponse : Type :=
| RecMissingTitle
| RecNotFound (suggestions : list string)
| RecFound (query : string) (count : nat) (recommendations : list Rec)
| RecServerError.

(** [not title] for a query parameter. *)
Definition param_missing (p : option string) : bool :=
  match p with
  | None => true
  | Some s => String.eqb s ""
  end.

Definition param_text (p : option string) : string :=
  match p with
  | None => ""
  | Some s => s
  end.

Section RecommendHandler.

(** Whether [jsonify] encodes the recommendations: it raises [TypeError]
    on a value it cannot encode (a numpy integer, say), and that depends
    on the Python types of the values, which the model does not track. *)
Variable encodes : list Rec -> bool.

(** [get_recommendations]: 400 without a title; the loop that collects the
    suggestions is the loop of [search_titles] with limit 5; whatever is
    raised inside the [try], by [recommend] or by [jsonify] on the
    results, is caught and answered with 500. *)
Definition get_recommendations (eng : Engine) (title : option string)
    (top_n : Z) : RecommendResponse :=
  if param_missing title then RecMissingTitle
  else
    let title := param_text title in
    let top_n := clamp 1 50 top_n in
    match recommend eng title top_n with
    | Ok [] =>
        RecNotFound (search_loop (lower title) 5 (dropna (titles eng)) [])
    | Ok results =>
        if encodes results then RecFound title (List.length results) results
        else RecServerError
    | ValueError => RecServerError
    | IndexError => RecServerError
    end.

End RecommendHandler.

(** [/search] *)
Inductive SearchResponse : Type :=
| SearchMissingQuery
| SearchFound (query : string) (count : nat) (results : list string).

Definition search (eng : Engine) (query : option string) (limit : Z)
    : SearchResponse :=
  let query := lower (param_text query) in
  if String.eqb query "" then SearchMissingQuery
  else
    let limit := clamp 1 100 limit in
    let matches := search_loop query limit (dropna (titles eng)) [] in
    SearchFound query (List.length matches) matches.

(** [/info] *)

(** A row as a dictionary without its NaN values. *)
Record Info : Type := mkInfo {
  info_title : option string;
  info_genre : option string;
  info_type : option string;
  info_source : option string;
  info_score : option cell;
  info_episodes : option cell;
  info_aired : option string;
  info_studio : option string
}.

(** [{k: v for k, v in row.to_dict().items() if v == v}], the dictionary
    [info] passes to [jsonify]. *)
Definition info_dict (row : Row) : Info :=
  mkInfo (title row) (genre row) (type_ row) (source row)
         (present (score row)) (present (episodes row))
         (aired row) (studio row).

Inductive InfoResponse : Type :=
| InfoMissingTitle
| InfoNotFound
| InfoFound (info_ : Info).

(** [metadata['title'] == title], row by row. *)
Definition title_is (t : string) (row : Row) : bool :=
  match title row with
  | Some x => String.eqb x t
  | None => false
  end.

(** [metadata['title'].str.lower() == title.lower()], row by row. *)
Definition title_lower_is (t : string) (row : Row) : bool :=
  match title row with
  | Some x => String.eqb (lower x) (lower t)
  | None => false
  end.

Definition info (eng : Engine) (title : option string) : InfoResponse :=
  if param_missing title then InfoMissingTitle
  else
    let title := param_text title in
    let anime_info := filter (title_is title) (df eng) in
    let anime_info :=
      match anime_info with
      | [] => filter (title_lower_is title) (df eng)
      | _ :: _ => anime_info
      end in
    match anime_info with
    | [] => InfoNotFound
    | row :: _ => InfoFound (info_dict row)
    end.

(** [/titles] *)

(** [Series.unique()]: the values in order of first appearance. *)
Fixpoint unique_from (seen_vals : list string) (xs : list string)
    : list string :=
  match xs with
  | [] => []
  | x :: xs' =>
      if in_dec string_dec x seen_vals then unique_from seen_vals xs'
      else x :: unique_from (x :: seen_vals) xs'
  end.

Definition unique (xs : list string) : list string := unique_from [] xs.

(** [sorted(...)] on strings: ascending by character code, stable. *)
Fixpoint insert_sorted (x : string) (l : list string) : list string :=
  match l with
  | [] => [x]
  | y :: l' =>
      if String.ltb y x then y :: insert_sorted x l'
      else x :: y :: l'
  end.

Fixpoint sorted (l : list string) : list string :=
  match l with
  | [] => []
  | x :: l' => insert_sorted x (sorted l')
  end.

(** The payload of [/titles]: [count] and [titles]. *)
Definition titles_endpoint (eng : Engine) : nat * list string :=
  let title_list := sorted (unique (dropna (titles eng))) in
  (List.length title_list, title_list).

(** ** Vocabulary of the statements *)

(** Tokens of an optional text field. *)
Definition field_tokens (f : option string) : list string :=
  match f with
  | Some s => split_ws s
  | None => []
  end.

(** Occurrences of [tok] that the fields other than genre put into the
    tag string: the title three times, type, source and studio (commas
    turned into spaces) once each. *)
Definition extra_occurrences (tok : string) (row : Row) : nat :=
  3 * count_occ string_dec (field_tokens (title row)) tok
  + count_occ string_dec (field_tokens (type_ row)) tok
  + count_occ string_dec (field_tokens (source row)) tok
  + count_occ string_dec
      (field_tokens (option_map (replace_char "," " ") (studio row))) tok.

(** [a] comes before [b]: a larger score, or the same score and a smaller
    row number. *)
Definition ranks_before (a b : nat * Q) : Prop :=
  (snd b < snd a)%Q \/ ((snd a == snd b)%Q /\ fst a < fst b).

(** What the loop of [recommend] would emit from [dists] with no limit on
    the number of recommendations. *)
Fixpoint emit (eng : Engine) (index : nat) (dists : list (nat * Q))
    (seen_titles : list (option string)) : list (nat * Rec) :=
  match dists with
  | [] => []
  | (idx, score_) :: rest =>
      if idx =? index then emit eng index rest seen_titles
      else
        match nth_error (df eng) idx with
        | None => []
        | Some row =>
            if seen (title row) seen_titles then
              emit eng index rest seen_titles
            else
              (idx, make_rec row score_)
                :: emit eng index rest (title row :: seen_titles)
        end
  end.

(** Titles of the rows other than [index], in dataset order. *)
Definition other_titles (eng : Engine) (index : nat) : list (option string) :=
  map fst (filter (fun e => negb (snd e =? index))
                  (make_series 0 (titles eng))).

(** Number of distinct titles in a list (a missing title counts once). *)
Definition distinct_count (ts : list (option string)) : nat :=
  List.length (nodup title_eq_dec ts).

(** Title of an emitted dictionary. *)
Definition pick_title (p : nat * Rec) : option string := rec_title (snd p).

(** [p] is a dictionary built from a row other than [index]. *)
Definition built_from_other (eng : Engine) (index : nat) (p : nat * Rec) : Prop :=
  fst p <> index
  /\ exists row s, nth_error (df eng) (fst p) = Some row
                   /\ snd p = make_rec row s.

(** Characters of a string. *)
Definition chars (s : string) : list ascii := list_ascii_of_string s.

(** [w] is a non-empty run of non-space characters of [s]. *)
Definition token_of (s w : string) : Prop :=
  w <> "" /\ Forall (fun c => is_space c = false /\ In c (chars s)) (chars w).

(** Tokens of the genre field, commas read as separators. *)
Definition genre_tokens (row : Row) : list string :=
  field_tokens (option_map (replace_char "," " ") (genre row)).

(** [a < b] on Python strings. *)
Definition str_lt (a b : string) : Prop := String.ltb a b = true.

(** ** Example data *)

Definition title_row (t : option string) : Row :=
  mkRow t None None None None CNull CNull None.

(** Stand-ins for [int] and [float] on text in the examples, whose
    records hold no text in a numeric column. *)
Definition text_int_unused : string -> option Z := fun _ => None.
Definition text_float_unused : string -> option flt := fun _ => None.

(** A record with the genre, score, episodes and aired values of the
    example, titled "Action". *)
Definition action_row : Row :=
  mkRow (Some "Action") (Some "Action, Adventure") (Some "TV") (Some "Manga")
        None (CFloat (Fin (17 # 2))) (CInt 24) (Some "2015").

(** The same values under a title that shares no token with the genre. *)
Definition bebop_row : Row :=
  mkRow (Some "Cowboy Bebop") (Some "Action, Adventure") (Some "TV")
        (Some "Original") (Some "Sunrise, Bandai") (CFloat (Fin (17 # 2)))
        (CInt 24) (Some "2015").

(** A similarity matrix given by its rows. *)
Definition sim_of_table (m : list (list Q)) (i j : nat) : Q :=
  nth j (nth i m []) 0%Q.

(** Six rows: a repeated title in rows 0 and 5, a missing title in rows 2
    and 4, and equal scores in the matrix. *)
Definition demo_engine : Engine :=
  mkEngine
    [title_row (Some "One Piece"); title_row (Some "Naruto");
     title_row None; title_row (Some "OnePunch Man");
     title_row None; title_row (Some "One Piece")]
    (sim_of_table
       [[1; 1 # 4; 1 # 2; 1 # 4; 0; 1]%Q;
        [1 # 4; 1; 1 # 3; 1 # 2; 1 # 3; 1 # 2]%Q;
        [1 # 2; 1 # 3; 1; 0; 1 # 5; 1 # 2]%Q;
        [1 # 4; 1 # 2; 0; 1; 0; 1 # 4]%Q;
        [0; 1 # 3; 1 # 5; 0; 1; 0]%Q;
        [1; 1 # 2; 1 # 2; 1 # 4; 0; 1]%Q]).

(** Recommendations that [jsonify] encodes, for the examples (their
    optional values are missing). *)
Definition encodes_all (recs : list Rec) : bool := true.

(** The float 0.04415, exactly. *)
Definition float_0_04415 : Q :=
  (6362685553549037 # 144115188075855872)%Q.

(** The float 0.0442, exactly. *)
Definition float_0_0442 : Q :=
  (3184945656476415 # 72057594037927936)%Q.

(** A generator that always draws the first positions. *)
Definition first_positions (size n : nat) : list nat := seq 0 n.


(** Three rows, the first and the last with the same title. *)
Definition dup_engine : Engine :=
  mkEngine [title_row (Some "Naruto"); title_row (Some "Bleach");
            title_row (Some "Naruto")]
           (fun i j => if i =? j then 1%Q else (1 # 2)%Q).

(** * Properties *)

(** ** Splitting and joining *)

Lemma starts_word_split (s : string) :
  starts_word s = true -> split_ws s <> [].
Proof.
  destruct s as [|c s]; simpl; [discriminate|].
  intros H. apply negb_true_iff in H. rewrite H.
  destruct (starts_word s); [destruct (split_ws s)|]; discriminate.
Qed.

Lemma starts_word_app_space (a b : string) :
  starts_word (a ++ " " ++ b)%string = starts_word a.
Proof. destruct a; reflexivity. Qed.

Lemma split_ws_app_space (a b : string) :
  split_ws (a ++ " " ++ b)%string = split_ws a ++ split_ws b.
Proof.
  induction a as [|c a IH].
  - reflexivity.
  - change (String c a ++ " " ++ b)%string
      with (String c (a ++ " " ++ b)%string).
    cbn [split_ws]. rewrite starts_word_app_space, IH.
    destruct (is_space c); [reflexivity|].
    destruct (starts_word a) eqn:Hs; [|reflexivity].
    apply starts_word_split in Hs.
    destruct (split_ws a); [contradiction|reflexivity].
Qed.

Lemma split_ws_join (parts : list string) :
  split_ws (join " " parts) = flat_map split_ws parts.
Proof.
  induction parts as [|p ps IH]; [reflexivity|].
  destruct ps as [|p' ps].
  - simpl. now rewrite app_nil_r.
  - change (join " " (p :: p' :: ps))
      with (p ++ " " ++ join " " (p' :: ps))%string.
    rewrite split_ws_app_space, IH. reflexivity.
Qed.

Lemma count_occ_flat_map_app (tok : string) (l1 l2 : list string) :
  count_occ string_dec (flat_map split_ws (l1 ++ l2)) tok =
  count_occ string_dec (flat_map split_ws l1) tok
  + count_occ string_dec (flat_map split_ws l2) tok.
Proof. now rewrite flat_map_app, count_occ_app. Qed.

(** ** Record normalizer *)

Section NormalizerFacts.

Variable int_of_text : string -> option Z.
Variable float_of_text : string -> option flt.

Local Abbreviation py_int := (py_int int_of_text).
Local Abbreviation py_float := (py_float float_of_text).
Local Abbreviation tags_score := (tags_score float_of_text).
Local Abbreviation tags_episodes := (tags_episodes int_of_text).
Local Abbreviation tag_list := (tag_list int_of_text float_of_text).
Local Abbreviation create_tags := (create_tags int_of_text float_of_text).

Lemma py_int_notna (c : cell) (eps : Z) :
  py_int c = Some eps -> notna c = true.
Proof. destruct c as [| |[]|]; simpl; congruence. Qed.

Lemma py_float_notna (c : cell) (q : Q) :
  py_float c = Some (Fin q) -> notna c = true.
Proof. destruct c as [| |[]|]; cbn [py_float notna]; congruence. Qed.

(** C5. For a record whose episode value converts to an integer [eps], the
    episode step appends exactly one token to the tags: [movie_format] if
    [eps] is 1, [short_series] if it is between 2 and 13, [standard_series]
    if between 14 and 26, [long_series] if greater than 26.  When the
    conversion raises, the step leaves the tags unchanged (no token, no
    error). *)
Theorem C5_episode_bucket (row : Row) (tags : list string) :
  (forall eps : Z,
      py_int (episodes row) = Some eps ->
      exists tok : string,
        tags_episodes row tags = tags ++ [tok]
        /\ (eps = 1%Z -> tok = "movie_format")
        /\ ((2 <= eps <= 13)%Z -> tok = "short_series")
        /\ ((14 <= eps <= 26)%Z -> tok = "standard_series")
        /\ ((26 < eps)%Z -> tok = "long_series"))
  /\ (py_int (episodes row) = None -> tags_episodes row tags = tags).
Proof.
  split.
  - intros eps Heps. unfold tags_episodes.
    rewrite (py_int_notna _ _ Heps), Heps.
    destruct (Z.eqb_spec eps 1) as [E1|E1].
    { exists "movie_format". repeat split; intros; try reflexivity; lia. }
    destruct (Z.leb_spec eps 13) as [E2|E2].
    { exists "short_series". repeat split; intros; try reflexivity; lia. }
    destruct (Z.leb_spec eps 26) as [E3|E3].
    { exists "standard_series". repeat split; intros; try reflexivity; lia. }
    exists "long_series". repeat split; intros; try reflexivity; lia.
  - intros Hnone. unfold tags_episodes. rewrite Hnone.
    now destruct (notna (episodes row)).
Qed.

(** Counts below 1 (0, negatives) fall into the [eps <= 13] branch. *)
Lemma episode_bucket_below_one (row : Row) (tags : list string) (eps : Z) :
  py_int (episodes row) = Some eps -> (eps < 1)%Z ->
  tags_episodes row tags = tags ++ ["short_series"].
Proof.
  intros Heps Hlt. unfold tags_episodes.
  rewrite (py_int_notna _ _ Heps), Heps.
  destruct (Z.eqb_spec eps 1); [lia|].
  destruct (Z.leb_spec eps 13); [reflexivity|lia].
Qed.

Lemma tags_score_highly (row : Row) (tags : list string) (q : Q) :
  py_float (score row) = Some (Fin q) -> (8 <= q)%Q ->
  tags_score row tags = tags ++ ["highly_rated"].
Proof.
  intros Hs Hq. unfold tags_score.
  rewrite (py_float_notna _ _ Hs), Hs. simpl.
  apply Qle_bool_iff in Hq. now rewrite Hq.
Qed.

(** The tag list of a record with the genre, score, episodes and aired
    values of the example. *)
Lemma tag_list_example (row : Row) (q : Q) :
  genre row = Some "Action, Adventure" ->
  py_float (score row) = Some (Fin q) -> (q == 17 # 2)%Q ->
  py_int (episodes row) = Some 24%Z ->
  aired row = Some "2015" ->
  tag_list row =
    ((((match title row with Some t => [t; t; t] | None => [] end
        ++ ["Action"; "Adventure"; "Action"; "Adventure"])
       ++ match type_ row with Some t => [t] | None => [] end)
      ++ match source row with Some s => [s] | None => [] end)
     ++ match studio row with
        | Some s => [replace_char "," " " s]
        | None => []
        end)
    ++ ["highly_rated"; "standard_series"; "modern_era"].
Proof.
  intros Hg Hs Hq He Ha. unfold tag_list.
  unfold tags_era. rewrite Ha.
  change (first_year false "2015") with (Some 2015%Z). cbn match.
  change (2020 <=? 2015)%Z with false. change (2010 <=? 2015)%Z with true.
  cbn match.
  unfold tags_episodes. rewrite (py_int_notna _ _ He), He.
  change (24 =? 1)%Z with false. change (24 <=? 13)%Z with false.
  change (24 <=? 26)%Z with true. cbn match.
  rewrite (tags_score_highly _ _ q Hs) by (rewrite Hq; discriminate).
  unfold tags_studio, tags_source, tags_type, tags_genre, tags_title.
  rewrite Hg.
  change (split_ws (replace_char "," " " "Action, Adventure"))
    with ["Action"; "Adventure"].
  rewrite <- !app_assoc.
  destruct (title row), (type_ row), (source row), (studio row);
    cbn [app]; rewrite ?app_nil_r; reflexivity.
Qed.

(** C6 (as amended). For a record with genre "Action, Adventure", score
    8.5, episodes 24 and aired "2015", the tag string contains the tokens
    [Action] and [Adventure] twice each from the genre, plus once for each
    time the token occurs in type, source or studio and three times for
    each time it occurs in the title: exactly twice when no other field
    contains it.  The tag string contains [highly_rated],
    [standard_series] and [modern_era]. *)
Theorem C6_example_record_tags (row : Row) (q : Q) :
  genre row = Some "Action, Adventure" ->
  py_float (score row) = Some (Fin q) -> (q == 17 # 2)%Q ->
  py_int (episodes row) = Some 24%Z ->
  aired row = Some "2015" ->
  occurrences "Action" (create_tags row) = 2 + extra_occurrences "Action" row
  /\ occurrences "Adventure" (create_tags row)
     = 2 + extra_occurrences "Adventure" row
  /\ (extra_occurrences "Action" row = 0 ->
      occurrences "Action" (create_tags row) = 2)
  /\ (extra_occurrences "Adventure" row = 0 ->
      occurrences "Adventure" (create_tags row) = 2)
  /\ In "highly_rated" (split_ws (create_tags row))
  /\ In "standard_series" (split_ws (create_tags row))
  /\ In "modern_era" (split_ws (create_tags row)).
Proof.
  intros Hg Hs Hq He Ha.
  assert (Hocc : forall tok,
    occurrences tok (create_tags row) =
    extra_occurrences tok row
    + (count_occ string_dec ["Action"; "Adventure"; "Action"; "Adventure"] tok
       + count_occ string_dec
           ["highly_rated"; "standard_series"; "modern_era"] tok)).
  { intros tok. unfold occurrences, create_tags.
    rewrite split_ws_join, (tag_list_example row q Hg Hs Hq He Ha).
    rewrite !count_occ_flat_map_app. unfold extra_occurrences.
    change (flat_map split_ws ["Action"; "Adventure"; "Action"; "Adventure"])
      with ["Action"; "Adventure"; "Action"; "Adventure"].
    change (flat_map split_ws
              ["highly_rated"; "standard_series"; "modern_era"])
      with ["highly_rated"; "standard_series"; "modern_era"].
    destruct (title row), (type_ row), (source row), (studio row);
      cbn [flat_map field_tokens option_map];
      rewrite ?app_nil_r, ?count_occ_app;
      change (count_occ string_dec [] tok) with 0; lia. }
  assert (Hin : forall tok,
    In tok ["highly_rated"; "standard_series"; "modern_era"] ->
    In tok (split_ws (create_tags row))).
  { intros tok Hin. unfold create_tags.
    rewrite split_ws_join, (tag_list_example row q Hg Hs Hq He Ha).
    rewrite flat_map_app. apply in_or_app. right.
    change (flat_map split_ws
              ["highly_rated"; "standard_series"; "modern_era"])
      with ["highly_rated"; "standard_series"; "modern_era"].
    exact Hin. }
  pose proof (Hocc "Action") as HA. pose proof (Hocc "Adventure") as HB.
  change (occurrences "Action" (create_tags row)
          = extra_occurrences "Action" row + 2) in HA.
  change (occurrences "Adventure" (create_tags row)
          = extra_occurrences "Adventure" row + 2) in HB.
  repeat split; try lia; apply Hin; simpl; tauto.
Qed.

End NormalizerFacts.

(** ** Title index *)

Section SeriesFacts.

Lemma drop_duplicates_from_fresh (labels : list (option string)) :
  forall (start : nat) (seen_vals : list nat),
    (forall v, In v seen_vals -> v < start) ->
    drop_duplicates_from seen_vals (make_series start labels)
    = make_series start labels.
Proof.
  induction labels as [|l ls IH]; intros start seen_vals Hlt; [reflexivity|].
  cbn [make_series drop_duplicates_from].
  assert (Hfresh : existsb (Nat.eqb start) seen_vals = false).
  { apply not_true_is_false. intros Hex.
    apply existsb_exists in Hex. destruct Hex as [v [Hin Heq]].
    apply Nat.eqb_eq in Heq. subst v. apply Hlt in Hin. lia. }
  rewrite Hfresh. f_equal. apply IH.
  intros v [<-|Hin]; [lia|]. apply Hlt in Hin. lia.
Qed.

(** Row numbers are pairwise distinct, so [drop_duplicates] removes no
    entry of a series whose values are the row numbers. *)
Lemma drop_duplicates_make_series (labels : list (option string)) :
  drop_duplicates (make_series 0 labels) = make_series 0 labels.
Proof.
  apply drop_duplicates_from_fresh. intros v [].
Qed.

Lemma label_is_true (k : string) (l : option string) (v : nat) :
  label_is k (l, v) = true <-> l = Some k.
Proof.
  unfold label_is. cbn [fst]. destruct l as [t|].
  - rewrite String.eqb_eq. split; congruence.
  - split; discriminate.
Qed.

Lemma series_contains_make (k : string) (labels : list (option string)) :
  forall start,
    series_contains (make_series start labels) k = true
    <-> In (Some k) labels.
Proof.
  unfold series_contains.
  induction labels as [|l ls IH]; intros start; cbn [make_series existsb In].
  - split; [discriminate|tauto].
  - rewrite orb_true_iff, label_is_true, IH. tauto.
Qed.

Lemma values_at_make_In (k : string) (labels : list (option string)) :
  forall start i,
    In i (values_at (make_series start labels) k)
    <-> start <= i /\ nth_error labels (i - start) = Some (Some k).
Proof.
  unfold values_at.
  induction labels as [|l ls IH]; intros start i; cbn [make_series filter].
  - cbn [map In]. split; [tauto|]. intros [_ H].
    destruct (i - start); discriminate.
  - destruct (label_is k (l, start)) eqn:Hl.
    + apply label_is_true in Hl. subst l. cbn [map In snd]. rewrite IH.
      split.
      * intros [<-|[Hle Hn]].
        -- split; [lia|]. now rewrite Nat.sub_diag.
        -- split; [lia|]. replace (i - start) with (S (i - S start)) by lia.
           exact Hn.
      * intros [Hle Hn]. destruct (Nat.eq_dec start i) as [->|Hne]; [tauto|].
        right. split; [lia|].
        replace (i - start) with (S (i - S start)) in Hn by lia. exact Hn.
    + rewrite IH. split.
      * intros [Hle Hn]. split; [lia|].
        replace (i - start) with (S (i - S start)) by lia. exact Hn.
      * intros [Hle Hn]. destruct (Nat.eq_dec start i) as [->|Hne].
        -- rewrite Nat.sub_diag in Hn. cbn in Hn.
           assert (l = Some k) by congruence.
           apply (label_is_true k l i) in H. congruence.
        -- split; [lia|].
           replace (i - start) with (S (i - S start)) in Hn by lia. exact Hn.
Qed.

Lemma values_at_make_length (k : string) (labels : list (option string)) :
  forall start,
    List.length (values_at (make_series start labels) k)
    = count_occ title_eq_dec labels (Some k).
Proof.
  unfold values_at.
  induction labels as [|l ls IH]; intros start; [reflexivity|].
  cbn [make_series filter count_occ].
  destruct (label_is k (l, start)) eqn:Hl.
  - apply label_is_true in Hl. subst l.
    destruct (title_eq_dec (Some k) (Some k)); [|congruence].
    cbn [map List.length]. now rewrite IH.
  - destruct (title_eq_dec l (Some k)) as [E|E].
    + apply (label_is_true k l start) in E. congruence.
    + apply IH.
Qed.

Lemma count_occ_map_lower (ts : list (option string)) (t : string) :
  count_occ title_eq_dec ts (Some t)
  <= count_occ title_eq_dec (map (option_map lower) ts) (Some (lower t)).
Proof.
  induction ts as [|x ts IH]; [reflexivity|].
  cbn [map count_occ].
  destruct (title_eq_dec x (Some t)) as [->|E].
  - cbn [option_map].
    destruct (title_eq_dec (Some (lower t)) (Some (lower t))); [lia|congruence].
  - destruct (title_eq_dec (option_map lower x) (Some (lower t))); lia.
Qed.

Lemma lookup_of_single (vs : list nat) :
  List.length vs = 1 -> exists i, vs = [i] /\ lookup_of vs = Some (Scalar i).
Proof.
  destruct vs as [|i [|j vs]]; try discriminate. intros _. now exists i.
Qed.

Lemma lookup_of_many (vs : list nat) :
  1 < List.length vs -> exists i j rest, lookup_of vs = Some (Rows i j rest).
Proof.
  destruct vs as [|i [|j vs]]; cbn [List.length]; try lia.
  intros _. now exists i, j, vs.
Qed.

End SeriesFacts.

Section ResolveFacts.

Variable eng : Engine.

Lemma title_to_index_eq :
  title_to_index eng = make_series 0 (titles eng).
Proof. apply drop_duplicates_make_series. Qed.

Lemma title_to_index_lower_eq :
  title_to_index_lower eng
  = make_series 0 (map (option_map lower) (titles eng)).
Proof. apply drop_duplicates_make_series. Qed.

Lemma exact_contains (t : string) :
  series_contains (title_to_index eng) t = true <-> In (Some t) (titles eng).
Proof. rewrite title_to_index_eq. apply series_contains_make. Qed.

Lemma lower_contains (k : string) :
  series_contains (title_to_index_lower eng) k = true
  <-> In (Some k) (map (option_map lower) (titles eng)).
Proof. rewrite title_to_index_lower_eq. apply series_contains_make. Qed.

Lemma resolve_exact (t : string) :
  In (Some t) (titles eng) ->
  resolve eng t = series_get (title_to_index eng) t.
Proof.
  intros Hin. unfold resolve.
  apply exact_contains in Hin. now rewrite Hin.
Qed.

Lemma resolve_lower (t : string) :
  ~ In (Some t) (titles eng) ->
  In (Some (lower t)) (map (option_map lower) (titles eng)) ->
  resolve eng t = series_get (title_to_index_lower eng) (lower t).
Proof.
  intros Hex Hlow. unfold resolve.
  rewrite <- exact_contains in Hex. apply not_true_is_false in Hex.
  apply lower_contains in Hlow. now rewrite Hex, Hlow.
Qed.

Lemma resolve_miss (t : string) :
  ~ In (Some t) (titles eng) ->
  ~ In (Some (lower t)) (map (option_map lower) (titles eng)) ->
  resolve eng t = None.
Proof.
  intros Hex Hlow. unfold resolve.
  rewrite <- exact_contains in Hex. apply not_true_is_false in Hex.
  rewrite <- lower_contains in Hlow. apply not_true_is_false in Hlow.
  now rewrite Hex, Hlow.
Qed.

(** A title stored once resolves to its row. *)
Lemma series_get_unique (labels : list (option string)) (k : string) :
  count_occ title_eq_dec labels (Some k) = 1 ->
  exists i, values_at (make_series 0 labels) k = [i]
            /\ series_get (make_series 0 labels) k = Some (Scalar i)
            /\ nth_error labels i = Some (Some k).
Proof.
  intros Hc. rewrite <- (values_at_make_length k labels 0) in Hc.
  destruct (lookup_of_single _ Hc) as [i [Hv Hl]].
  exists i. repeat split; [exact Hv|exact Hl|].
  assert (Hin : In i (values_at (make_series 0 labels) k))
    by (rewrite Hv; now left).
  apply values_at_make_In in Hin. destruct Hin as [_ Hn].
  now rewrite Nat.sub_0_r in Hn.
Qed.

Lemma lookup_of_scalar (vs : list nat) (i : nat) :
  lookup_of vs = Some (Scalar i) -> vs = [i].
Proof.
  destruct vs as [|a [|b vs]]; cbn; intros H; inversion H; reflexivity.
Qed.

(** Two rows holding a title stored once are the same row. *)
Lemma stored_once_same_row (labels : list (option string)) (k : string)
    (i j : nat) :
  count_occ title_eq_dec labels (Some k) = 1 ->
  nth_error labels i = Some (Some k) ->
  nth_error labels j = Some (Some k) ->
  i = j.
Proof.
  intros Hc Hi Hj.
  destruct (series_get_unique _ _ Hc) as [p [Hv _]].
  assert (Hin : forall n, nth_error labels n = Some (Some k) -> n = p).
  { intros n Hn.
    assert (H : In n (values_at (make_series 0 labels) k)).
    { apply values_at_make_In. rewrite Nat.sub_0_r. split; [lia|exact Hn]. }
    rewrite Hv in H. destruct H as [<-|[]]. reflexivity. }
  rewrite (Hin i Hi), (Hin j Hj). reflexivity.
Qed.

(** A title that resolves to the single row [index]: that row stores a
    title with the same lowercased form, and stores it alone. *)
Lemma resolve_scalar_row (t : string) (index : nat) :
  resolve eng t = Some (Scalar index) ->
  exists t', nth_error (titles eng) index = Some (Some t')
             /\ lower t' = lower t
             /\ count_occ title_eq_dec (titles eng) (Some t') = 1.
Proof.
  unfold resolve.
  destruct (series_contains (title_to_index eng) t) eqn:Hex.
  - rewrite title_to_index_eq. unfold series_get. intros H.
    apply lookup_of_scalar in H. exists t.
    assert (Hin : In index (values_at (make_series 0 (titles eng)) t))
      by (rewrite H; now left).
    apply values_at_make_In in Hin. rewrite Nat.sub_0_r in Hin.
    repeat split; [tauto|].
    rewrite <- (values_at_make_length t (titles eng) 0), H. reflexivity.
  - destruct (series_contains (title_to_index_lower eng) (lower t));
      [|discriminate].
    rewrite title_to_index_lower_eq. unfold series_get. intros H.
    apply lookup_of_scalar in H.
    assert (Hin : In index
              (values_at (make_series 0 (map (option_map lower) (titles eng)))
                         (lower t)))
      by (rewrite H; now left).
    apply values_at_make_In in Hin. rewrite Nat.sub_0_r in Hin.
    destruct Hin as [_ Hn]. rewrite nth_error_map in Hn.
    destruct (nth_error (titles eng) index) as [[t'|]|] eqn:Hrow;
      try discriminate.
    cbn in Hn. assert (Hl : lower t' = lower t) by congruence.
    exists t'. repeat split; [exact Hl|].
    pose proof (count_occ_map_lower (titles eng) t') as Hle.
    rewrite Hl, <- (values_at_make_length (lower t) _ 0), H in Hle.
    cbn [List.length] in Hle.
    assert (Hpos : count_occ title_eq_dec (titles eng) (Some t') > 0).
    { apply count_occ_In. eapply nth_error_In. exact Hrow. }
    lia.
Qed.

End ResolveFacts.

(** ** Title resolution in [recommend] *)

(** C1 (the code departs from it). With the title "Naruto" stored in rows
    0 and 2, [drop_duplicates] removes nothing from either map, and the
    lookup of the title yields both row numbers. *)
Theorem C1_duplicate_title_keeps_both_rows :
  title_to_index dup_engine
  = [(Some "Naruto", 0); (Some "Bleach", 1); (Some "Naruto", 2)]
  /\ title_to_index_lower dup_engine
     = [(Some "naruto", 0); (Some "bleach", 1); (Some "naruto", 2)]
  /\ series_get (title_to_index dup_engine) "Naruto" = Some (Rows 0 2 [])
  /\ series_get (title_to_index_lower dup_engine) "naruto"
     = Some (Rows 0 2 []).
Proof. repeat split. Qed.


(** The same in terms of the table: both lookups miss exactly when no
    row's title equals the input and no row's lowercased title equals the
    lowercased input. *)
Lemma recommend_unknown_title (eng : Engine) (t : string) (top_n : Z) :
  ~ In (Some (lower t)) (map (option_map lower) (titles eng)) ->
  recommend eng t top_n = Ok [].
Proof.
  intros Hlow. unfold recommend. rewrite resolve_miss; [reflexivity| |exact Hlow].
  intros Hin. apply Hlow.
  apply (in_map (option_map lower)) in Hin. exact Hin.
Qed.

(** C10. A title stored in more than one row is found in the exact-title
    map with two or more row numbers, and [recommend] raises instead of
    returning a list. *)
Theorem C10_duplicate_title_raises (eng : Engine) (t : string) (top_n : Z) :
  1 < count_occ title_eq_dec (titles eng) (Some t) ->
  (exists i j rest,
      series_get (title_to_index eng) t = Some (Rows i j rest)
      /\ resolve eng t = Some (Rows i j rest))
  /\ recommend eng t top_n = ValueError
  /\ (forall recs, recommend eng t top_n <> Ok recs).
Proof.
  intros Hc.
  assert (Hin : In (Some t) (titles eng)).
  { apply (count_occ_In title_eq_dec). lia. }
  assert (Hr : exists i j rest,
             series_get (title_to_index eng) t = Some (Rows i j rest)).
  { unfold series_get. apply lookup_of_many.
    rewrite title_to_index_eq, values_at_make_length. exact Hc. }
  destruct Hr as [i [j [rest Hr]]].
  assert (Hres : resolve eng t = Some (Rows i j rest)).
  { now rewrite (resolve_exact eng t Hin). }
  assert (Hrec : recommend eng t top_n = ValueError).
  { unfold recommend. now rewrite Hres. }
  split; [now exists i, j, rest|]. split; [exact Hrec|].
  intros recs. rewrite Hrec. discriminate.
Qed.

(** C8. If [t] is a stored title whose lowercased form occurs once among
    the lowercased titles, then every string [v] with the same lowercased
    form resolves to the row of [t], and [recommend] returns for [v] what
    it returns for [t]. *)
Theorem C8_case_insensitive (eng : Engine) (t v : string) (top_n : Z) :
  In (Some t) (titles eng) ->
  count_occ title_eq_dec (map (option_map lower) (titles eng))
            (Some (lower t)) = 1 ->
  lower v = lower t ->
  (exists i, nth_error (titles eng) i = Some (Some t)
             /\ resolve eng t = Some (Scalar i)
             /\ resolve eng v = Some (Scalar i))
  /\ recommend eng v top_n = recommend eng t top_n.
Proof.
  intros Hin Hone Hv.
  destruct (series_get_unique _ _ Hone) as [i [Hvals [Hget Hnth]]].
  (* every row whose title lowercases to [lower t] is row [i] *)
  assert (Hrow : forall s p,
             lower s = lower t ->
             nth_error (titles eng) p = Some (Some s) -> p = i).
  { intros s p Hs Hp.
    assert (Hp' : In p (values_at
                     (make_series 0 (map (option_map lower) (titles eng)))
                     (lower t))).
    { apply values_at_make_In. split; [lia|].
      rewrite Nat.sub_0_r, nth_error_map, Hp. cbn. now rewrite Hs. }
    rewrite Hvals in Hp'. destruct Hp' as [<-|[]]. reflexivity. }
  (* a stored title with that lowercased form resolves exactly, to [i] *)
  assert (Hexact : forall s,
             lower s = lower t -> In (Some s) (titles eng) ->
             resolve eng s = Some (Scalar i)
             /\ nth_error (titles eng) i = Some (Some s)).
  { intros s Hs Hins.
    rewrite (resolve_exact eng s Hins), title_to_index_eq.
    assert (Hcs : count_occ title_eq_dec (titles eng) (Some s) = 1).
    { pose proof (count_occ_map_lower (titles eng) s) as Hle.
      rewrite Hs, Hone in Hle.
      pose proof (proj1 (count_occ_In title_eq_dec _ _) Hins). lia. }
    destruct (series_get_unique _ _ Hcs) as [p [_ [Hg Hn]]].
    pose proof (Hrow s p Hs Hn) as Hp. subst p. now split. }
  destruct (Hexact t eq_refl Hin) as [Hrt Hnt].
  assert (Hrv : resolve eng v = Some (Scalar i)).
  { destruct (in_dec title_eq_dec (Some v) (titles eng)) as [Hinv|Hninv].
    - apply (Hexact v Hv Hinv).
    - rewrite (resolve_lower eng v Hninv).
      + rewrite Hv, title_to_index_lower_eq. exact Hget.
      + rewrite Hv. apply (count_occ_In title_eq_dec). lia. }
  split.
  - exists i. auto.
  - unfold recommend. now rewrite Hrt, Hrv.
Qed.

(** ** Order of the candidates *)

Section SortFacts.

Lemma insert_desc_perm (x : nat * Q) (l : list (nat * Q)) :
  Permutation (x :: l) (insert_desc x l).
Proof.
  induction l as [|y l IH]; cbn [insert_desc]; [reflexivity|].
  destruct (Qle_bool (snd y) (snd x)); [reflexivity|].
  rewrite perm_swap. now apply perm_skip.
Qed.

Lemma sort_desc_perm (l : list (nat * Q)) :
  Permutation l (sort_desc l).
Proof.
  induction l as [|x l IH]; cbn [sort_desc]; [reflexivity|].
  rewrite <- insert_desc_perm. now apply perm_skip.
Qed.

Lemma ranks_before_of_le (x z : nat * Q) :
  (snd z <= snd x)%Q -> fst x < fst z -> ranks_before x z.
Proof.
  intros Hle Hlt. destruct (Qle_lt_or_eq _ _ Hle) as [H|H].
  - now left.
  - right. split; [now symmetry|exact Hlt].
Qed.

Lemma ranks_before_score (a b : nat * Q) :
  ranks_before a b -> (snd b <= snd a)%Q.
Proof.
  intros [H|[H _]]; [now apply Qlt_le_weak|].
  rewrite H. apply Qle_refl.
Qed.

Lemma insert_desc_sorted (x : nat * Q) (l : list (nat * Q)) :
  StronglySorted ranks_before l ->
  Forall (fun y => fst x < fst y) l ->
  StronglySorted ranks_before (insert_desc x l).
Proof.
  induction l as [|y l IH]; intros Hs Hx; cbn [insert_desc].
  - constructor; constructor.
  - inversion Hs as [|? ? Hs' Hy]; subst.
    inversion Hx as [|? ? Hxy Hx']; subst.
    destruct (Qle_bool (snd y) (snd x)) eqn:Hle.
    + apply Qle_bool_iff in Hle. constructor; [exact Hs|].
      constructor; [now apply ranks_before_of_le|].
      rewrite Forall_forall in *. intros z Hz.
      apply ranks_before_of_le; [|now apply Hx'].
      apply Qle_trans with (snd y); [|exact Hle].
      apply ranks_before_score. now apply Hy.
    + assert (Hlt : (snd x < snd y)%Q).
      { apply Qnot_le_lt. intros H. apply Qle_bool_iff in H. congruence. }
      constructor; [now apply IH|].
      rewrite Forall_forall in *. intros z Hz.
      apply (Permutation_in _ (Permutation_sym (insert_desc_perm x l))) in Hz.
      destruct Hz as [<-|Hz]; [now left|now apply Hy].
Qed.

(** On entries listed by increasing row number the sort is stable. *)
Lemma sort_desc_sorted (l : list (nat * Q)) :
  StronglySorted lt (map fst l) ->
  StronglySorted ranks_before (sort_desc l).
Proof.
  induction l as [|x l IH]; intros Hs; cbn [sort_desc]; [constructor|].
  cbn [map] in Hs. inversion Hs as [|? ? Hs' Hx]; subst.
  apply insert_desc_sorted; [now apply IH|].
  rewrite Forall_forall in *. intros y Hy.
  apply (Permutation_in _ (Permutation_sym (sort_desc_perm l))) in Hy.
  apply Hx. now apply in_map.
Qed.

Lemma seq_strongly_sorted (len : nat) :
  forall start, StronglySorted lt (seq start len).
Proof.
  induction len as [|len IH]; intros start; cbn [seq]; constructor.
  - apply IH.
  - rewrite Forall_forall. intros y Hy. apply in_seq in Hy. lia.
Qed.

Lemma enumerate_row_fst (eng : Engine) (index : nat) :
  map fst (enumerate_row eng index) = seq 0 (List.length (df eng)).
Proof.
  unfold enumerate_row. rewrite map_map. cbn [fst]. apply map_id.
Qed.

End SortFacts.


(** ** Output of [recommend] *)

Section ListFacts.

Context {A : Type}.

Lemma NoDup_firstn (n : nat) (l : list A) : NoDup l -> NoDup (firstn n l).
Proof.
  intros H. rewrite <- (firstn_skipn n l) in H.
  now apply NoDup_app_remove_r in H.
Qed.

Lemma Forall_firstn (P : A -> Prop) (n : nat) (l : list A) :
  Forall P l -> Forall P (firstn n l).
Proof.
  intros H. rewrite <- (firstn_skipn n l) in H.
  now apply Forall_app in H.
Qed.

End ListFacts.

Section RecommendFacts.

Variable eng : Engine.
Variable index : nat.

Lemma seen_true (t : option string) (l : list (option string)) :
  seen t l = true <-> In t l.
Proof.
  unfold seen. destruct (in_dec title_eq_dec t l); split;
    congruence || tauto.
Qed.

Lemma recommend_loop_emit (top_n : Z) :
  (0 < top_n)%Z ->
  forall dists seen_titles acc,
    Forall (fun d => fst d < List.length (df eng)) dists ->
    (Z.of_nat (List.length acc) < top_n)%Z ->
    recommend_loop eng index top_n dists seen_titles acc
    = Ok (acc ++ firstn (Z.to_nat top_n - List.length acc)
                        (emit eng index dists seen_titles)).
Proof.
  intros Hpos. induction dists as [|[idx sc] rest IH];
    intros seen_titles acc Hrange Hlen.
  - cbn [recommend_loop emit]. now rewrite firstn_nil, app_nil_r.
  - inversion Hrange as [|? ? Hidx Hrest]; subst. cbn [fst] in Hidx.
    cbn [recommend_loop emit].
    destruct (idx =? index); [now apply IH|].
    destruct (nth_error (df eng) idx) as [row|] eqn:Hrow.
    2:{ apply nth_error_None in Hrow. lia. }
    destruct (seen (title row) seen_titles); [now apply IH|].
    rewrite length_app. cbn [List.length].
    replace (Z.to_nat top_n - List.length acc)
      with (S (Z.to_nat top_n - (List.length acc + 1))) by lia.
    cbn [firstn].
    destruct (Z.eqb_spec (Z.of_nat (List.length acc + 1)) top_n) as [E|E].
    + replace (Z.to_nat top_n - (List.length acc + 1)) with 0 by lia.
      reflexivity.
    + rewrite IH; [|exact Hrest|rewrite length_app; cbn [List.length]; lia].
      rewrite length_app. cbn [List.length].
      now rewrite <- app_assoc.
Qed.

Lemma emit_unseen (dists : list (nat * Q)) :
  forall seen_titles,
    Forall (fun p => ~ In (pick_title p) seen_titles)
           (emit eng index dists seen_titles).
Proof.
  induction dists as [|[idx sc] rest IH]; intros seen_titles;
    cbn [emit]; [constructor|].
  destruct (idx =? index); [apply IH|].
  destruct (nth_error (df eng) idx) as [row|]; [|constructor].
  destruct (seen (title row) seen_titles) eqn:Hseen; [apply IH|].
  constructor.
  - unfold pick_title. cbn. rewrite <- seen_true. congruence.
  - eapply Forall_impl; [|apply IH]. cbn. tauto.
Qed.

Lemma emit_NoDup (dists : list (nat * Q)) :
  forall seen_titles,
    NoDup (map pick_title (emit eng index dists seen_titles)).
Proof.
  induction dists as [|[idx sc] rest IH]; intros seen_titles;
    cbn [emit]; [constructor|].
  destruct (idx =? index); [apply IH|].
  destruct (nth_error (df eng) idx) as [row|]; [|constructor].
  destruct (seen (title row) seen_titles); [apply IH|].
  cbn [map]. constructor; [|apply IH].
  intros Hin. apply in_map_iff in Hin. destruct Hin as [p [Hp Hin]].
  pose proof (emit_unseen rest (title row :: seen_titles)) as Hun.
  rewrite Forall_forall in Hun. apply (Hun p Hin).
  left. now rewrite Hp.
Qed.

Lemma emit_built (dists : list (nat * Q)) :
  forall seen_titles,
    Forall (built_from_other eng index) (emit eng index dists seen_titles).
Proof.
  induction dists as [|[idx sc] rest IH]; intros seen_titles;
    cbn [emit]; [constructor|].
  destruct (Nat.eqb_spec idx index) as [E|E]; [apply IH|].
  destruct (nth_error (df eng) idx) as [row|] eqn:Hrow; [|constructor].
  destruct (seen (title row) seen_titles); [apply IH|].
  constructor; [|apply IH].
  split; [exact E|]. now exists row, sc.
Qed.

Lemma emit_sound (dists : list (nat * Q)) :
  forall seen_titles t,
    In t (map pick_title (emit eng index dists seen_titles)) ->
    exists i s row, In (i, s) dists /\ i <> index
                    /\ nth_error (df eng) i = Some row /\ title row = t.
Proof.
  induction dists as [|[idx sc] rest IH]; intros seen_titles t;
    cbn [emit]; [intros []|].
  assert (Hrest : In t (map pick_title (emit eng index rest seen_titles))
                  \/ (exists r, In t (map pick_title
                                    (emit eng index rest (r :: seen_titles)))) ->
                  exists i s row, In (i, s) ((idx, sc) :: rest) /\ i <> index
                    /\ nth_error (df eng) i = Some row /\ title row = t).
  { intros [H|[r H]]; apply IH in H;
      destruct H as [i [s [row [Hin H]]]]; exists i, s, row;
      (split; [now right|exact H]). }
  destruct (Nat.eqb_spec idx index) as [E|E]; [intros H; apply Hrest; now left|].
  destruct (nth_error (df eng) idx) as [row|] eqn:Hrow; [|intros []].
  destruct (seen (title row) seen_titles);
    [intros H; apply Hrest; now left|].
  cbn [map In]. intros [H|H].
  - exists idx, sc, row. repeat split; auto; now left.
  - apply Hrest. right. now exists (title row).
Qed.

Lemma emit_complete (dists : list (nat * Q)) :
  Forall (fun d => fst d < List.length (df eng)) dists ->
  forall seen_titles i s row,
    In (i, s) dists -> i <> index -> nth_error (df eng) i = Some row ->
    In (title row) seen_titles
    \/ In (title row) (map pick_title (emit eng index dists seen_titles)).
Proof.
  induction dists as [|[idx sc] rest IH]; intros Hrange seen_titles i s row Hin Hi Hrow;
    [destruct Hin|].
  inversion Hrange as [|? ? Hidx Hrest]; subst. cbn [fst] in Hidx.
  cbn [emit].
  destruct (Nat.eqb_spec idx index) as [E|E].
  { destruct Hin as [Heq|Hin]; [congruence|]. eapply IH; eauto. }
  destruct (nth_error (df eng) idx) as [row0|] eqn:Hrow0.
  2:{ apply nth_error_None in Hrow0. lia. }
  destruct (seen (title row0) seen_titles) eqn:Hseen.
  - destruct Hin as [Heq|Hin]; [|eapply IH; eauto].
    inversion Heq; subst. left. apply seen_true.
    assert (row0 = row) by congruence. now subst.
  - cbn [map In]. destruct Hin as [Heq|Hin].
    + inversion Heq; subst. right. left.
      assert (row0 = row) by congruence. now subst.
    + destruct (IH Hrest (title row0 :: seen_titles) i s row Hin Hi Hrow)
        as [[H|H]|H]; [right; left; exact H|now left|right; now right].
Qed.

End RecommendFacts.

Section RecommendOutput.

Variable eng : Engine.
Variable index : nat.

Lemma make_series_In (labels : list (option string)) :
  forall start l v,
    In (l, v) (make_series start labels)
    <-> start <= v /\ nth_error labels (v - start) = Some l.
Proof.
  induction labels as [|x ls IH]; intros start l v; cbn [make_series In].
  - split; [tauto|]. intros [_ H]. destruct (v - start); discriminate.
  - rewrite IH. split.
    + intros [H|[Hle Hn]].
      * inversion H; subst. split; [lia|]. now rewrite Nat.sub_diag.
      * split; [lia|]. replace (v - start) with (S (v - S start)) by lia.
        exact Hn.
    + intros [Hle Hn]. destruct (Nat.eq_dec start v) as [->|Hne].
      * rewrite Nat.sub_diag in Hn. cbn in Hn. left. congruence.
      * right. split; [lia|].
        replace (v - start) with (S (v - S start)) in Hn by lia. exact Hn.
Qed.

Lemma other_titles_In (t : option string) :
  In t (other_titles eng index)
  <-> exists i, i <> index /\ nth_error (titles eng) i = Some t.
Proof.
  unfold other_titles. rewrite in_map_iff. split.
  - intros [[l v] [Hl Hin]]. cbn in Hl. subst l.
    apply filter_In in Hin. destruct Hin as [Hin Hne]. cbn in Hne.
    apply make_series_In in Hin. destruct Hin as [_ Hn].
    rewrite Nat.sub_0_r in Hn. exists v. split; [|exact Hn].
    apply negb_true_iff, Nat.eqb_neq in Hne. exact Hne.
  - intros [i [Hne Hn]]. exists (t, i). split; [reflexivity|].
    apply filter_In. split.
    + apply make_series_In. rewrite Nat.sub_0_r. split; [lia|exact Hn].
    + cbn. now apply negb_true_iff, Nat.eqb_neq.
Qed.

Lemma distances_In (i : nat) (s : Q) :
  In (i, s) (distances eng index)
  <-> i < List.length (df eng) /\ s = sim eng index i.
Proof.
  unfold distances. split.
  - intros H.
    apply (Permutation_in _ (Permutation_sym (sort_desc_perm _))) in H.
    unfold enumerate_row in H. apply in_map_iff in H.
    destruct H as [j [Hj Hin]]. inversion Hj; subst.
    apply in_seq in Hin. split; [lia|reflexivity].
  - intros [Hlt ->]. apply (Permutation_in _ (sort_desc_perm _)).
    unfold enumerate_row. apply in_map_iff. exists i.
    split; [reflexivity|]. apply in_seq. lia.
Qed.

Lemma distances_range :
  Forall (fun d => fst d < List.length (df eng)) (distances eng index).
Proof.
  rewrite Forall_forall. intros [i s] H. apply distances_In in H. tauto.
Qed.

(** With no limit, one dictionary is emitted per distinct title of the
    other rows. *)
Lemma emit_length :
  List.length (emit eng index (distances eng index) [])
  = distinct_count (other_titles eng index).
Proof.
  unfold distinct_count.
  rewrite <- (length_map pick_title).
  apply Nat.le_antisymm; apply NoDup_incl_length.
  - apply emit_NoDup.
  - intros t Ht. apply nodup_In, other_titles_In.
    apply emit_sound in Ht. destruct Ht as [i [s [row [_ [Hi [Hrow Ht]]]]]].
    exists i. split; [exact Hi|].
    unfold titles. rewrite nth_error_map, Hrow. cbn. now rewrite Ht.
  - apply NoDup_nodup.
  - intros t Ht. apply nodup_In, other_titles_In in Ht.
    destruct Ht as [i [Hi Hn]]. unfold titles in Hn.
    rewrite nth_error_map in Hn.
    destruct (nth_error (df eng) i) as [row|] eqn:Hrow; [|discriminate].
    cbn in Hn. inversion Hn; subst.
    assert (Hlt : i < List.length (df eng))
      by (apply nth_error_Some; congruence).
    destruct (emit_complete eng index _ distances_range []
                i (sim eng index i) row) as [[]|H]; auto.
    apply distances_In. auto.
Qed.

Lemma recommend_rows_emit (top_n : Z) :
  (0 < top_n)%Z ->
  recommend_rows eng index top_n
  = Ok (firstn (Z.to_nat top_n) (emit eng index (distances eng index) [])).
Proof.
  intros Hpos. unfold recommend_rows.
  rewrite recommend_loop_emit; [|exact Hpos|apply distances_range|exact Hpos].
  cbn [List.length app]. now rewrite Nat.sub_0_r.
Qed.

End RecommendOutput.

(** C3. When the title resolves to a single row [index] and [top_n] is
    positive, [recommend] returns a list in which every dictionary is
    built from a row other than [index] (none carries the title stored in
    row [index]), no two dictionaries have the same title, and there are
    at most [top_n] dictionaries; there are fewer than [top_n] only when
    the other rows have fewer than [top_n] distinct titles (the length is
    the smaller of the two numbers). *)
Theorem C3_recommend_output (eng : Engine) (t : string) (index : nat)
    (top_n : Z) :
  resolve eng t = Some (Scalar index) ->
  (0 < top_n)%Z ->
  exists picks : list (nat * Rec),
    recommend_rows eng index top_n = Ok picks
    /\ recommend eng t top_n = Ok (map snd picks)
    /\ Forall (built_from_other eng index) picks
    /\ ~ In index (map fst picks)
    /\ ~ In (nth index (titles eng) None) (map rec_title (map snd picks))
    /\ NoDup (map rec_title (map snd picks))
    /\ (Z.of_nat (List.length (map snd picks)) <= top_n)%Z
    /\ ((Z.of_nat (List.length (map snd picks)) < top_n)%Z ->
        (Z.of_nat (distinct_count (other_titles eng index)) < top_n)%Z)
    /\ List.length (map snd picks)
       = Nat.min (Z.to_nat top_n) (distinct_count (other_titles eng index)).
Proof.
  intros Hres Hpos.
  exists (firstn (Z.to_nat top_n) (emit eng index (distances eng index) [])).
  pose proof (recommend_rows_emit eng index top_n Hpos) as Hrows.
  assert (Hbuilt : Forall (built_from_other eng index)
            (firstn (Z.to_nat top_n) (emit eng index (distances eng index) [])))
    by apply Forall_firstn, emit_built.
  assert (Hlen : List.length
            (map snd (firstn (Z.to_nat top_n)
                        (emit eng index (distances eng index) [])))
          = Nat.min (Z.to_nat top_n) (distinct_count (other_titles eng index))).
  { now rewrite length_map, length_firstn, emit_length. }
  split; [exact Hrows|]. split.
  { unfold recommend. now rewrite Hres, Hrows. }
  split; [exact Hbuilt|]. split.
  { intros Hin. apply in_map_iff in Hin. destruct Hin as [p [Hp Hin]].
    rewrite Forall_forall in Hbuilt. destruct (Hbuilt p Hin) as [Hne _].
    congruence. }
  split.
  { destruct (resolve_scalar_row eng t index Hres) as [t' [Hrow [_ Hone]]].
    rewrite (nth_error_nth _ _ None Hrow).
    rewrite map_map. intros Hin. apply in_map_iff in Hin.
    destruct Hin as [p [Hp Hin]].
    rewrite Forall_forall in Hbuilt.
    destruct (Hbuilt p Hin) as [Hne [row [s [Hnth Hrec]]]].
    rewrite Hrec in Hp. cbn in Hp.
    apply Hne. apply (stored_once_same_row (titles eng) t'); auto.
    unfold titles. rewrite nth_error_map, Hnth. cbn. now rewrite Hp. }
  split.
  { rewrite map_map. change (fun x => rec_title (snd x)) with pick_title.
    rewrite <- firstn_map. apply NoDup_firstn, emit_NoDup. }
  rewrite Hlen. repeat split; lia.
Qed.

(** ** search_titles *)

Section SearchFacts.

Lemma dropna_In (t : string) (ts : list (option string)) :
  In t (dropna ts) <-> In (Some t) ts.
Proof.
  induction ts as [|[x|] ts IH]; cbn [dropna In].
  - tauto.
  - rewrite IH. split; intros [H|H]; auto; left; congruence.
  - rewrite IH. split; [auto|]. intros [H|H]; [discriminate|exact H].
Qed.

Lemma search_loop_firstn (query_lower : string) (limit : Z) :
  (0 < limit)%Z ->
  forall ts matches,
    (Z.of_nat (List.length matches) < limit)%Z ->
    search_loop query_lower limit ts matches
    = matches ++ firstn (Z.to_nat limit - List.length matches)
                        (filter (fun t => contains (lower t) query_lower) ts).
Proof.
  intros Hpos. induction ts as [|t ts IH]; intros matches Hlen.
  - cbn [search_loop filter]. now rewrite firstn_nil, app_nil_r.
  - cbn [search_loop filter].
    destruct (contains (lower t) query_lower); [|now apply IH].
    rewrite length_app. cbn [List.length].
    replace (Z.to_nat limit - List.length matches)
      with (S (Z.to_nat limit - (List.length matches + 1))) by lia.
    cbn [firstn].
    destruct (Z.geb_spec (Z.of_nat (List.length matches + 1)) limit) as [E|E].
    + replace (Z.to_nat limit - (List.length matches + 1)) with 0 by lia.
      reflexivity.
    + rewrite IH by (rewrite length_app; cbn [List.length]; lia).
      rewrite length_app. cbn [List.length]. now rewrite <- app_assoc.
Qed.

End SearchFacts.

(** C9. For a positive limit, [search_titles] returns the first [limit]
    (or all, if there are fewer) of the non-null titles whose lowercased
    text contains the lowercased query, in dataset order: at most [limit]
    titles, each one a stored title that matches, none skipped before the
    cutoff. *)
Theorem C9_search_titles (eng : Engine) (query : string) (limit : Z) :
  (0 < limit)%Z ->
  search_titles eng query limit
  = firstn (Z.to_nat limit)
           (filter (fun t => contains (lower t) (lower query))
                   (dropna (titles eng)))
  /\ (Z.of_nat (List.length (search_titles eng query limit)) <= limit)%Z
  /\ Forall (fun t => In (Some t) (titles eng)
                      /\ contains (lower t) (lower query) = true)
            (search_titles eng query limit).
Proof.
  intros Hpos.
  assert (Heq : search_titles eng query limit
                = firstn (Z.to_nat limit)
                    (filter (fun t => contains (lower t) (lower query))
                            (dropna (titles eng)))).
  { unfold search_titles. rewrite search_loop_firstn by (cbn; lia).
    cbn [List.length app]. now rewrite Nat.sub_0_r. }
  split; [exact Heq|]. rewrite Heq. split.
  - rewrite length_firstn. lia.
  - apply Forall_firstn. rewrite Forall_forall. intros t Ht.
    apply filter_In in Ht. destruct Ht as [Hin Hc].
    split; [now apply dropna_In|exact Hc].
Qed.

(** ** Similarity matrix *)

Section CosineFacts.

Local Open Scope R_scope.












End CosineFacts.


(** * The statements on concrete data *)





(** C3 on the title stored once in [dup_engine]: the two other rows share
    one title, so one dictionary comes back. *)
Lemma C3_recommend_output_witness :
  resolve dup_engine "Bleach" = Some (Scalar 1)
  /\ (0 < 5)%Z
  /\ exists picks : list (nat * Rec),
       recommend_rows dup_engine 1 5 = Ok picks
       /\ recommend dup_engine "Bleach" 5 = Ok (map snd picks)
       /\ Forall (built_from_other dup_engine 1) picks
       /\ ~ In 1 (map fst picks)
       /\ ~ In (nth 1 (titles dup_engine) None)
              (map rec_title (map snd picks))
       /\ NoDup (map rec_title (map snd picks))
       /\ (Z.of_nat (List.length (map snd picks)) <= 5)%Z
       /\ ((Z.of_nat (List.length (map snd picks)) < 5)%Z ->
           (Z.of_nat (distinct_count (other_titles dup_engine 1)) < 5)%Z)
       /\ List.length (map snd picks)
          = Nat.min (Z.to_nat 5) (distinct_count (other_titles dup_engine 1)).
Proof.
  split; [reflexivity|]. split; [lia|].
  apply (C3_recommend_output dup_engine "Bleach" 1 5); [reflexivity|lia].
Defined.

(** C5 on an episode count of 24. *)
Lemma C5_episode_bucket_witness :
  py_int text_int_unused (episodes bebop_row) = Some 24%Z
  /\ exists tok : string,
       tags_episodes text_int_unused bebop_row [] = [] ++ [tok]
       /\ (24%Z = 1%Z -> tok = "movie_format")
       /\ ((2 <= 24 <= 13)%Z -> tok = "short_series")
       /\ ((14 <= 24 <= 26)%Z -> tok = "standard_series")
       /\ ((26 < 24)%Z -> tok = "long_series").
Proof.
  split; [reflexivity|].
  apply (proj1 (C5_episode_bucket text_int_unused bebop_row []) 24%Z).
  reflexivity.
Defined.

(** C6 as stated fails on a record titled "Action": the token occurs five
    times in its tag string, three of them from the title. *)
Lemma C6_counterexample :
  genre action_row = Some "Action, Adventure"
  /\ score action_row = CFloat (Fin (17 # 2))
  /\ episodes action_row = CInt 24
  /\ aired action_row = Some "2015"
  /\ create_tags text_int_unused text_float_unused action_row
     = "Action Action Action Action Adventure Action Adventure TV Manga highly_rated standard_series modern_era"
  /\ occurrences "Action"
       (create_tags text_int_unused text_float_unused action_row) = 5
  /\ ~ (occurrences "Action"
          (create_tags text_int_unused text_float_unused action_row) = 2
        /\ occurrences "Adventure"
             (create_tags text_int_unused text_float_unused action_row) = 2).
Proof.
  repeat split; try reflexivity.
  intros [H _]. vm_compute in H. discriminate.
Qed.

(** C6 as amended, on a record whose other fields hold neither token. *)
Lemma C6_example_record_tags_witness :
  let tags := create_tags text_int_unused text_float_unused bebop_row in
  genre bebop_row = Some "Action, Adventure"
  /\ py_float text_float_unused (score bebop_row) = Some (Fin (17 # 2))
  /\ (17 # 2 == 17 # 2)%Q
  /\ py_int text_int_unused (episodes bebop_row) = Some 24%Z
  /\ aired bebop_row = Some "2015"
  /\ occurrences "Action" tags = 2 + extra_occurrences "Action" bebop_row
  /\ occurrences "Adventure" tags
     = 2 + extra_occurrences "Adventure" bebop_row
  /\ (extra_occurrences "Action" bebop_row = 0 ->
      occurrences "Action" tags = 2)
  /\ (extra_occurrences "Adventure" bebop_row = 0 ->
      occurrences "Adventure" tags = 2)
  /\ In "highly_rated" (split_ws tags)
  /\ In "standard_series" (split_ws tags)
  /\ In "modern_era" (split_ws tags).
Proof.
  intros tags.
  split; [reflexivity|]. split; [reflexivity|]. split; [reflexivity|].
  split; [reflexivity|]. split; [reflexivity|].
  apply (C6_example_record_tags text_int_unused text_float_unused
           bebop_row (17 # 2));
    reflexivity.
Defined.

(** C8 on "BLEACH" against the stored "Bleach". *)
Lemma C8_case_insensitive_witness :
  In (Some "Bleach") (titles dup_engine)
  /\ count_occ title_eq_dec (map (option_map lower) (titles dup_engine))
       (Some (lower "Bleach")) = 1
  /\ lower "BLEACH" = lower "Bleach"
  /\ (exists i, nth_error (titles dup_engine) i = Some (Some "Bleach")
                /\ resolve dup_engine "Bleach" = Some (Scalar i)
                /\ resolve dup_engine "BLEACH" = Some (Scalar i))
  /\ recommend dup_engine "BLEACH" 5 = recommend dup_engine "Bleach" 5.
Proof.
  split; [right; left; reflexivity|]. split; [reflexivity|].
  split; [reflexivity|].
  apply (C8_case_insensitive dup_engine "Bleach" "BLEACH" 5);
    [right; left; reflexivity|reflexivity|reflexivity].
Defined.

(** C9 on the query "NA" with limit 1. *)
Lemma C9_search_titles_witness :
  (0 < 1)%Z
  /\ search_titles dup_engine "NA" 1
     = firstn (Z.to_nat 1)
              (filter (fun t => contains (lower t) (lower "NA"))
                      (dropna (titles dup_engine)))
  /\ (Z.of_nat (List.length (search_titles dup_engine "NA" 1)) <= 1)%Z
  /\ Forall (fun t => In (Some t) (titles dup_engine)
                      /\ contains (lower t) (lower "NA") = true)
            (search_titles dup_engine "NA" 1).
Proof.
  split; [lia|]. apply (C9_search_titles dup_engine "NA" 1). lia.
Defined.

(** C10 on the title stored twice in [dup_engine]. *)
Lemma C10_duplicate_title_raises_witness :
  1 < count_occ title_eq_dec (titles dup_engine) (Some "Naruto")
  /\ (exists i j rest,
         series_get (title_to_index dup_engine) "Naruto"
         = Some (Rows i j rest)
         /\ resolve dup_engine "Naruto" = Some (Rows i j rest))
  /\ recommend dup_engine "Naruto" 5 = ValueError
  /\ (forall recs, recommend dup_engine "Naruto" 5 <> Ok recs).
Proof.
  split; [vm_compute; lia|].
  apply (C10_duplicate_title_raises dup_engine "Naruto" 5).
  vm_compute. lia.
Defined.

(** ** Further evaluations *)

Example create_tags_bebop :
  create_tags text_int_unused text_float_unused bebop_row
  = "Cowboy Bebop Cowboy Bebop Cowboy Bebop Action Adventure Action Adventure TV Original Sunrise  Bandai highly_rated standard_series modern_era".
Proof. reflexivity. Qed.

Example create_tags_empty :
  create_tags text_int_unused text_float_unused (title_row None) = "".
Proof. reflexivity. Qed.

Example first_year_range :
  first_year false "Apr 3, 1998 to Apr 24, 1999" = Some 1998%Z
  /\ first_year false "x2015 20155 1999b" = None.
Proof. split; reflexivity. Qed.

(** Row 1 against the others: rows 3 and 5 tie at 1/2, rows 2 and 4 at
    1/3, each pair in dataset order. *)
Example distances_demo :
  map fst (distances demo_engine 1) = [1; 3; 5; 2; 4; 0].
Proof. reflexivity. Qed.

Example recommend_demo_titles :
  result_map (map rec_title) (recommend demo_engine "NARUTO" 5)
  = Ok [Some "OnePunch Man"; Some "One Piece"; None]
  /\ result_map (map rec_title) (recommend demo_engine "naruto" 2)
     = Ok [Some "OnePunch Man"; Some "One Piece"]
  /\ recommend demo_engine "One Piece" 5 = ValueError
  /\ recommend demo_engine "Bleach" 5 = Ok [].
Proof. repeat split. Qed.

Example search_titles_one :
  search_titles demo_engine "one" 3
  = ["One Piece"; "OnePunch Man"; "One Piece"]
  /\ search_titles demo_engine "ONE" 2 = ["One Piece"; "OnePunch Man"].
Proof. split; reflexivity. Qed.


(** * Further properties *)

(** ** Tokens *)

Lemma token_of_tail (c : ascii) (s w : string) :
  token_of s w -> token_of (String c s) w.
Proof.
  intros [Hne Hall]. split; [exact Hne|].
  eapply Forall_impl; [|exact Hall]. cbn. tauto.
Qed.

Lemma split_ws_tokens (s : string) : Forall (token_of s) (split_ws s).
Proof.
  induction s as [|c s IH]; cbn [split_ws]; [constructor|].
  assert (Htail : Forall (token_of (String c s)) (split_ws s)).
  { eapply Forall_impl; [|exact IH]. intros w. apply token_of_tail. }
  destruct (is_space c) eqn:Hc; [exact Htail|].
  assert (Hone : token_of (String c s) (String c "")).
  { split; [discriminate|].
    constructor; [split; [exact Hc|now left]|constructor]. }
  destruct (starts_word s); [|now constructor].
  destruct (split_ws s) as [|w ws]; [now constructor|].
  inversion Htail as [|? ? [Hne Hw] Hws]; subst.
  constructor; [|exact Hws].
  split; [discriminate|]. constructor; [|exact Hw].
  split; [exact Hc|now left].
Qed.

Lemma split_ws_token (w : string) :
  w <> "" -> Forall (fun c => is_space c = false) (chars w) ->
  split_ws w = [w].
Proof.
  induction w as [|c w IH]; [congruence|]. intros _ Hall.
  inversion Hall as [|? ? Hc Hw]; subst. cbn [split_ws]. rewrite Hc.
  destruct w as [|c' w']; [reflexivity|].
  inversion Hw as [|? ? Hc' _]; subst.
  cbn [starts_word]. rewrite Hc'. cbn [negb].
  rewrite IH; [reflexivity|discriminate|exact Hw].
Qed.

Lemma split_ws_fixed (s : string) :
  flat_map split_ws (split_ws s) = split_ws s.
Proof.
  pose proof (split_ws_tokens s) as H.
  induction H as [|w ws [Hne Hw] _ IH]; [reflexivity|].
  cbn [flat_map]. rewrite IH, split_ws_token; [reflexivity|exact Hne|].
  eapply Forall_impl; [|exact Hw]. cbn. tauto.
Qed.

Lemma chars_replace_char (old new c : ascii) (s : string) :
  old <> new -> In c (chars (replace_char old new s)) -> c <> old.
Proof.
  intros Hne. induction s as [|x s IH]; cbn; [tauto|].
  intros [H|H]; [|now apply IH].
  destruct (Ascii.eqb_spec x old); congruence.
Qed.

(** ** Years *)

Lemma digit_val_range (c : ascii) :
  is_digit c = true -> (0 <= digit_val c <= 9)%Z.
Proof.
  unfold is_digit, digit_val. intros H.
  apply andb_true_iff in H. destruct H as [H1 H2].
  apply Nat.leb_le in H1, H2. lia.
Qed.

Lemma year_here_eq (c1 c2 c3 c4 : ascii) (rest : string) :
  year_here (String c1 (String c2 (String c3 (String c4 rest))))
  = if ((Ascii.eqb c1 "1" && Ascii.eqb c2 "9")
        || (Ascii.eqb c1 "2" && Ascii.eqb c2 "0"))
       && is_digit c3 && is_digit c4
       && match rest with
          | EmptyString => true
          | String c5 _ => negb (is_word c5)
          end
    then Some (1000 * digit_val c1 + 100 * digit_val c2
               + 10 * digit_val c3 + digit_val c4)%Z
    else None.
Proof. reflexivity. Qed.

Lemma year_here_range (s : string) (y : Z) :
  year_here s = Some y -> (1900 <= y <= 2099)%Z.
Proof.
  destruct s as [|c1 [|c2 [|c3 [|c4 rest]]]]; try discriminate.
  rewrite year_here_eq.
  set (d1 := digit_val c1). set (d2 := digit_val c2).
  set (d3 := digit_val c3). set (d4 := digit_val c4).
  destruct (_ && _) eqn:Hc; [|discriminate].
  intros Hy. assert (Hv : y = (1000 * d1 + 100 * d2 + 10 * d3 + d4)%Z)
    by congruence.
  clear Hy.
  repeat (apply andb_true_iff in Hc; destruct Hc as [Hc ?]).
  assert (H3 : (0 <= d3 <= 9)%Z) by now apply digit_val_range.
  assert (H4 : (0 <= d4 <= 9)%Z) by now apply digit_val_range.
  assert (H12 : (d1 = 1 /\ d2 = 9)%Z \/ (d1 = 2 /\ d2 = 0)%Z).
  { apply orb_true_iff in Hc.
    destruct Hc as [Hc|Hc]; apply andb_true_iff in Hc; destruct Hc as [E1 E2];
      apply Ascii.eqb_eq in E1, E2; subst d1 d2; rewrite E1, E2;
      [left|right]; split; reflexivity. }
  lia.
Qed.

Lemma first_year_sound (s : string) :
  forall (after_word : bool) (y : Z),
    first_year after_word s = Some y ->
    exists pre suf, s = (pre ++ suf)%string /\ year_here suf = Some y.
Proof.
  induction s as [|c s IH]; intros after_word y; cbn [first_year];
    [discriminate|].
  destruct (if after_word then None else year_here (String c s)) as [y'|] eqn:Hy.
  - intros H. inversion H; subst.
    destruct after_word; [discriminate|].
    exists "", (String c s). split; [reflexivity|exact Hy].
  - intros H. apply IH in H. destruct H as [pre [suf [-> Hs]]].
    exists (String c pre), suf. split; [reflexivity|exact Hs].
Qed.

Section NormalizerMore.

Variable int_of_text : string -> option Z.
Variable float_of_text : string -> option flt.

Local Abbreviation py_int := (py_int int_of_text).
Local Abbreviation py_float := (py_float float_of_text).
Local Abbreviation tags_score := (tags_score float_of_text).
Local Abbreviation tags_episodes := (tags_episodes int_of_text).
Local Abbreviation tag_list := (tag_list int_of_text float_of_text).
Local Abbreviation create_tags := (create_tags int_of_text float_of_text).

(** X1. Score bucket: a finite score of at least 8 appends
    [highly_rated], one in [7,8) [well_rated], one in [6,7)
    [decent_rated], a smaller one nothing; plus infinity counts as highly
    rated; minus infinity and a conversion that raises append nothing. *)
Theorem X1_score_bucket (row : Row) (tags : list string) :
  (forall q : Q,
      py_float (score row) = Some (Fin q) ->
      ((8 <= q)%Q -> tags_score row tags = tags ++ ["highly_rated"])
      /\ ((7 <= q)%Q -> (q < 8)%Q ->
          tags_score row tags = tags ++ ["well_rated"])
      /\ ((6 <= q)%Q -> (q < 7)%Q ->
          tags_score row tags = tags ++ ["decent_rated"])
      /\ ((q < 6)%Q -> tags_score row tags = tags))
  /\ (score row = CFloat PosInf ->
      tags_score row tags = tags ++ ["highly_rated"])
  /\ (score row = CFloat NegInf -> tags_score row tags = tags)
  /\ (py_float (score row) = None -> tags_score row tags = tags).
Proof.
  assert (Hge : forall c q, (c <= q)%Q -> Qle_bool c q = true)
    by (intros; now apply Qle_bool_iff).
  assert (Hlt : forall c q, (q < c)%Q -> Qle_bool c q = false).
  { intros c q H. apply not_true_is_false. intros Hb.
    apply Qle_bool_iff in Hb. now apply (Qlt_not_le _ _ H). }
  split; [|split; [|split]].
  - intros q Hs. unfold tags_score.
    rewrite (py_float_notna _ _ q Hs), Hs. cbn [flt_geb].
    repeat split.
    + intros H8. now rewrite (Hge _ _ H8).
    + intros H7 H8. now rewrite (Hlt _ _ H8), (Hge _ _ H7).
    + intros H6 H7.
      assert (H8 : (q < 8)%Q) by (eapply Qlt_trans; [exact H7|reflexivity]).
      now rewrite (Hlt _ _ H8), (Hlt _ _ H7), (Hge _ _ H6).
    + intros H6.
      assert (H7 : (q < 7)%Q) by (eapply Qlt_trans; [exact H6|reflexivity]).
      assert (H8 : (q < 8)%Q) by (eapply Qlt_trans; [exact H6|reflexivity]).
      now rewrite (Hlt _ _ H8), (Hlt _ _ H7), (Hlt _ _ H6).
  - intros Hs. unfold tags_score. now rewrite Hs.
  - intros Hs. unfold tags_score. now rewrite Hs.
  - intros Hs. unfold tags_score. rewrite Hs.
    now destruct (notna (score row)).
Qed.

(** X2. Era bucket: when a year is found in the aired text it lies
    between 1900 and 2099 and exactly one token is appended:
    [recent_anime] from 2020 on, [modern_era] for 2010-2019,
    [early_2000s] for 2000-2009, [classic_anime] before 2000.  Without a
    year, or without the field, nothing is appended. *)
Theorem X2_era_bucket (row : Row) (tags : list string) :
  (forall (s : string) (y : Z),
      aired row = Some s -> first_year false s = Some y ->
      (1900 <= y <= 2099)%Z
      /\ exists tok : string,
           tags_era row tags = tags ++ [tok]
           /\ ((2020 <= y)%Z -> tok = "recent_anime")
           /\ ((2010 <= y <= 2019)%Z -> tok = "modern_era")
           /\ ((2000 <= y <= 2009)%Z -> tok = "early_2000s")
           /\ ((y <= 1999)%Z -> tok = "classic_anime"))
  /\ (forall s, aired row = Some s -> first_year false s = None ->
      tags_era row tags = tags)
  /\ (aired row = None -> tags_era row tags = tags).
Proof.
  split; [|split].
  - intros s y Ha Hy. split.
    { destruct (first_year_sound s false y Hy) as [pre [suf [_ Hs]]].
      now apply year_here_range in Hs. }
    unfold tags_era. rewrite Ha, Hy.
    destruct (Z.leb_spec 2020 y).
    { exists "recent_anime". repeat split; intros; try reflexivity; lia. }
    destruct (Z.leb_spec 2010 y).
    { exists "modern_era". repeat split; intros; try reflexivity; lia. }
    destruct (Z.leb_spec 2000 y).
    { exists "early_2000s". repeat split; intros; try reflexivity; lia. }
    exists "classic_anime". repeat split; intros; try reflexivity; lia.
  - intros s Ha Hy. unfold tags_era. now rewrite Ha, Hy.
  - intros Ha. unfold tags_era. now rewrite Ha.
Qed.

Lemma tags_score_app (row : Row) (tags : list string) :
  tags_score row tags = tags ++ tags_score row [].
Proof.
  unfold tags_score. destruct (notna (score row)); [|now rewrite app_nil_r].
  destruct (py_float (score row)) as [x|]; [|now rewrite app_nil_r].
  destruct (flt_geb x 8); [reflexivity|].
  destruct (flt_geb x 7); [reflexivity|].
  destruct (flt_geb x 6); [reflexivity|now rewrite app_nil_r].
Qed.

Lemma tags_episodes_app (row : Row) (tags : list string) :
  tags_episodes row tags = tags ++ tags_episodes row [].
Proof.
  unfold tags_episodes.
  destruct (notna (episodes row)); [|now rewrite app_nil_r].
  destruct (py_int (episodes row)) as [e|]; [|now rewrite app_nil_r].
  destruct (e =? 1)%Z; [reflexivity|].
  destruct (e <=? 13)%Z; [reflexivity|].
  destruct (e <=? 26)%Z; reflexivity.
Qed.

Lemma tags_era_app (row : Row) (tags : list string) :
  tags_era row tags = tags ++ tags_era row [].
Proof.
  unfold tags_era. destruct (aired row) as [s|]; [|now rewrite app_nil_r].
  destruct (first_year false s) as [y|]; [|now rewrite app_nil_r].
  destruct (2020 <=? y)%Z; [reflexivity|].
  destruct (2010 <=? y)%Z; [reflexivity|].
  destruct (2000 <=? y)%Z; reflexivity.
Qed.

(** The bucket tokens are single words. *)
Lemma bucket_tokens_fixed (row : Row) :
  flat_map split_ws (tags_score row []) = tags_score row []
  /\ flat_map split_ws (tags_episodes row []) = tags_episodes row []
  /\ flat_map split_ws (tags_era row []) = tags_era row [].
Proof.
  split; [|split].
  - unfold tags_score. destruct (notna (score row)); [|reflexivity].
    destruct (py_float (score row)) as [x|]; [|reflexivity].
    destruct (flt_geb x 8); [reflexivity|].
    destruct (flt_geb x 7); [reflexivity|].
    destruct (flt_geb x 6); reflexivity.
  - unfold tags_episodes. destruct (notna (episodes row)); [|reflexivity].
    destruct (py_int (episodes row)) as [e|]; [|reflexivity].
    destruct (e =? 1)%Z; [reflexivity|].
    destruct (e <=? 13)%Z; [reflexivity|].
    destruct (e <=? 26)%Z; reflexivity.
  - unfold tags_era. destruct (aired row) as [s|]; [|reflexivity].
    destruct (first_year false s) as [y|]; [|reflexivity].
    destruct (2020 <=? y)%Z; [reflexivity|].
    destruct (2010 <=? y)%Z; [reflexivity|].
    destruct (2000 <=? y)%Z; reflexivity.
Qed.

Lemma tag_list_pieces (row : Row) :
  tag_list row =
    tags_title row [] ++ tags_genre row [] ++ tags_type row []
    ++ tags_source row [] ++ tags_studio row [] ++ tags_score row []
    ++ tags_episodes row [] ++ tags_era row [].
Proof.
  unfold tag_list.
  rewrite tags_era_app, tags_episodes_app, tags_score_app.
  unfold tags_studio, tags_source, tags_type, tags_genre, tags_title.
  destruct (title row), (genre row), (type_ row), (source row), (studio row);
    cbn [app]; rewrite <- ?app_assoc, ?app_nil_r; reflexivity.
Qed.

(** X3. The genre field contributes each of its tokens twice, in two
    runs; a genre token is never empty and contains neither a comma nor a
    whitespace character. *)
Theorem X3_genre_tokens (row : Row) (tags : list string) :
  tags_genre row tags = tags ++ genre_tokens row ++ genre_tokens row
  /\ Forall (fun w => w <> ""
                      /\ Forall (fun c => c <> ","%char /\ is_space c = false)
                                (chars w))
            (genre_tokens row).
Proof.
  unfold tags_genre, genre_tokens. destruct (genre row) as [g|]; cbn.
  2:{ split; [now rewrite app_nil_r|constructor]. }
  split; [reflexivity|].
  eapply Forall_impl; [|apply split_ws_tokens].
  intros w [Hne Hw]. split; [exact Hne|].
  eapply Forall_impl; [|exact Hw]. cbn. intros c [Hs Hin].
  split; [|exact Hs].
  apply (chars_replace_char "," " " c g); [discriminate|exact Hin].
Qed.

(** X4. The words of the tag string, in order: the words of the title
    three times, the genre tokens twice, the words of type, of source and
    of studio (commas read as spaces) once, then the score, episode and
    era tokens.  Hence a word occurs three times per occurrence in the
    title, twice per occurrence in the genre, and once per occurrence
    elsewhere. *)
Theorem X4_tag_string_words (row : Row) (tok : string) :
  split_ws (create_tags row) =
    (field_tokens (title row) ++ field_tokens (title row)
       ++ field_tokens (title row))
    ++ (genre_tokens row ++ genre_tokens row)
    ++ field_tokens (type_ row)
    ++ field_tokens (source row)
    ++ field_tokens (option_map (replace_char "," " ") (studio row))
    ++ tags_score row [] ++ tags_episodes row [] ++ tags_era row []
  /\ occurrences tok (create_tags row) =
       3 * count_occ string_dec (field_tokens (title row)) tok
       + 2 * count_occ string_dec (genre_tokens row) tok
       + count_occ string_dec (field_tokens (type_ row)) tok
       + count_occ string_dec (field_tokens (source row)) tok
       + count_occ string_dec
           (field_tokens (option_map (replace_char "," " ") (studio row))) tok
       + count_occ string_dec
           (tags_score row [] ++ tags_episodes row [] ++ tags_era row []) tok.
Proof.
  assert (Hw : split_ws (create_tags row) =
    (field_tokens (title row) ++ field_tokens (title row)
       ++ field_tokens (title row))
    ++ (genre_tokens row ++ genre_tokens row)
    ++ field_tokens (type_ row)
    ++ field_tokens (source row)
    ++ field_tokens (option_map (replace_char "," " ") (studio row))
    ++ tags_score row [] ++ tags_episodes row [] ++ tags_era row []).
  { unfold create_tags. rewrite split_ws_join, tag_list_pieces.
    rewrite !flat_map_app.
    destruct (bucket_tokens_fixed row) as [-> [-> ->]].
    f_equal; [|f_equal; [|f_equal; [|f_equal; [|f_equal]]]].
    - unfold tags_title. destruct (title row); cbn; [|reflexivity].
      now rewrite app_nil_r.
    - unfold tags_genre, genre_tokens. destruct (genre row); cbn;
        [|reflexivity].
      now rewrite flat_map_app, split_ws_fixed.
    - unfold tags_type. destruct (type_ row); cbn; [|reflexivity].
      now rewrite app_nil_r.
    - unfold tags_source. destruct (source row); cbn; [|reflexivity].
      now rewrite app_nil_r.
    - unfold tags_studio. destruct (studio row); cbn; [|reflexivity].
      now rewrite app_nil_r. }
  split; [exact Hw|].
  unfold occurrences. rewrite Hw, !count_occ_app. lia.
Qed.

End NormalizerMore.

(** ** Rounding *)

Lemma decimal4_spec (x : Q) :
  let n := (Qnum x * 10000)%Z in
  let d := Zpos (Qden x) in
  let k := Qnum (decimal4 x) in
  Qden (decimal4 x) = 10000%positive
  /\ (2 * n - d <= 2 * (k * d) <= 2 * n + d)%Z
  /\ ((2 * (k * d) = 2 * n + d)%Z -> Z.even k = true)
  /\ ((2 * (k * d) = 2 * n - d)%Z -> Z.even k = true).
Proof.
  intros n d k. unfold decimal4, round_half_even in k. cbn [Qnum Qden] in k.
  fold n in k. fold d in k.
  assert (Hd : (0 < d)%Z) by (unfold d; lia).
  pose proof (Z.div_mod n d ltac:(lia)) as Hdm.
  pose proof (Z.mod_pos_bound n d Hd) as Hr.
  set (fl := (n / d)%Z) in *. set (r := (n mod d)%Z) in *.
  split; [reflexivity|].
  destruct (Z.compare_spec (2 * r) d) as [E|E|E].
  - destruct (Z.even fl) eqn:Hev; subst k.
    + repeat split; try nia. intros _. exact Hev.
    + repeat split; try nia. intros _.
      rewrite Z.even_add, Hev. reflexivity.
  - subst k. repeat split; nia.
  - subst k. repeat split; nia.
Qed.

Lemma decimal4_mono (x y : Q) : (x <= y)%Q -> (decimal4 x <= decimal4 y)%Q.
Proof.
  intros Hxy. unfold Qle in *.
  destruct (decimal4_spec x) as [Hdx [[_ Hux] [Hex _]]].
  destruct (decimal4_spec y) as [Hdy [[Hly _] [_ Hey]]].
  rewrite Hdx, Hdy.
  set (k1 := Qnum (decimal4 x)) in *. set (k2 := Qnum (decimal4 y)) in *.
  set (d1 := Zpos (Qden x)) in *. set (d2 := Zpos (Qden y)) in *.
  set (a1 := Qnum x) in *. set (a2 := Qnum y) in *.
  assert (Hd1 : (0 < d1)%Z) by (unfold d1; lia).
  assert (Hd2 : (0 < d2)%Z) by (unfold d2; lia).
  assert (Hle : (k1 <= k2)%Z); [|lia].
  destruct (Z.le_gt_cases k1 k2) as [H|H]; [exact H|exfalso].
  assert (H1 : (2 * (k1 * d1) * d2 <= (2 * (a1 * 10000) + d1) * d2)%Z)
    by (apply Z.mul_le_mono_nonneg_r; lia).
  assert (H2 : ((2 * (a2 * 10000) - d2) * d1 <= 2 * (k2 * d2) * d1)%Z)
    by (apply Z.mul_le_mono_nonneg_r; lia).
  assert (H3 : (a1 * d2 * 10000 <= a2 * d1 * 10000)%Z) by lia.
  assert (Hp : (0 < d1 * d2)%Z) by nia.
  assert (Hk : (k1 = k2 + 1)%Z) by nia.
  assert (E1 : (2 * (k1 * d1) = 2 * (a1 * 10000) + d1)%Z) by nia.
  assert (E2 : (2 * (k2 * d2) = 2 * (a2 * 10000) - d2)%Z) by nia.
  specialize (Hex E1). specialize (Hey E2).
  rewrite Hk, Z.even_add, Hey in Hex. discriminate.
Qed.

Lemma decimal4_error (x : Q) :
  (x - (1 # 20000) <= decimal4 x)%Q /\ (decimal4 x <= x + (1 # 20000))%Q.
Proof.
  destruct (decimal4_spec x) as [Hd [[Hl Hu] _]].
  unfold Qle, Qminus, Qplus, Qopp. cbn [Qnum Qden]. rewrite Hd.
  set (k := Qnum (decimal4 x)) in *.
  rewrite !Pos2Z.inj_mul.
  set (d := Zpos (Qden x)) in *. set (a := Qnum x) in *.
  assert (Hdpos : (0 < d)%Z) by (unfold d; lia).
  split; nia.
Qed.

(** [round(0.04415, 4)] is the float 0.0442, which lies a little further
    than 0.00005 from 0.04415. *)
Example round4_0_04415 :
  Qred (round4 float_0_04415) = float_0_0442
  /\ decimal4 float_0_04415 = (442 # 10000)%Q
  /\ (float_0_04415 + (1 # 20000) < round4 float_0_04415)%Q.
Proof. repeat split. Qed.

(** ** Title index and resolution *)

Lemma make_series_combine (labels : list (option string)) :
  forall start,
    make_series start labels = combine labels (seq start (List.length labels)).
Proof.
  induction labels as [|l ls IH]; intros start; [reflexivity|].
  cbn [make_series List.length seq combine]. now rewrite IH.
Qed.

Lemma series_get_some (labels : list (option string)) (k : string) :
  In (Some k) labels -> series_get (make_series 0 labels) k <> None.
Proof.
  intros Hin. unfold series_get.
  apply (count_occ_In title_eq_dec) in Hin.
  rewrite <- (values_at_make_length k labels 0) in Hin.
  destruct (values_at (make_series 0 labels) k) as [|i [|j rest]];
    cbn in *; [lia|discriminate|discriminate].
Qed.

(** X5. Both title maps hold one entry per row of the table, in row
    order, labelled with that row's title (lowercased in the second map)
    and valued with the row number; in particular their length is the
    number of rows, whatever titles repeat or are missing. *)
Theorem X5_title_index_rows (eng : Engine) :
  title_to_index eng
  = combine (titles eng) (seq 0 (List.length (df eng)))
  /\ title_to_index_lower eng
     = combine (map (option_map lower) (titles eng))
               (seq 0 (List.length (df eng)))
  /\ List.length (title_to_index eng) = List.length (df eng)
  /\ List.length (title_to_index_lower eng) = List.length (df eng).
Proof.
  rewrite title_to_index_eq, title_to_index_lower_eq, !make_series_combine.
  unfold titles.
  rewrite !length_combine, !length_map, !length_seq.
  repeat split; try reflexivity; lia.
Qed.

Lemma resolve_none_iff (eng : Engine) (t : string) :
  resolve eng t = None
  <-> ~ In (Some (lower t)) (map (option_map lower) (titles eng)).
Proof.
  split.
  - intros Hnone Hin. unfold resolve in Hnone.
    destruct (series_contains (title_to_index eng) t) eqn:Hex.
    + apply exact_contains in Hex. rewrite title_to_index_eq in Hnone.
      now apply (series_get_some _ _ Hex).
    + apply lower_contains in Hin. rewrite Hin in Hnone.
      apply lower_contains in Hin.
      rewrite title_to_index_lower_eq in Hnone.
      now apply (series_get_some _ _ Hin).
  - intros Hlow. apply resolve_miss; [|exact Hlow].
    intros Hin. apply Hlow. now apply (in_map (option_map lower)) in Hin.
Qed.

(** X6. No index is found exactly when no row's lowercased title equals
    the lowercased input; [recommend] then returns the empty list. *)
Theorem X6_unknown_title (eng : Engine) (t : string) (top_n : Z) :
  (resolve eng t = None
   <-> ~ In (Some (lower t)) (map (option_map lower) (titles eng)))
  /\ (~ In (Some (lower t)) (map (option_map lower) (titles eng)) ->
      recommend eng t top_n = Ok []).
Proof.
  split; [apply resolve_none_iff|apply recommend_unknown_title].
Qed.

(** X7. An input stored as the title of exactly one row resolves to that
    row, whatever case variants of it other rows hold. *)
Theorem X7_exact_match_first (eng : Engine) (t : string) :
  count_occ title_eq_dec (titles eng) (Some t) = 1 ->
  exists i, nth_error (titles eng) i = Some (Some t)
            /\ resolve eng t = Some (Scalar i).
Proof.
  intros Hone.
  destruct (series_get_unique _ _ Hone) as [i [_ [Hget Hnth]]].
  exists i. split; [exact Hnth|].
  rewrite resolve_exact, title_to_index_eq; [exact Hget|].
  apply (count_occ_In title_eq_dec). lia.
Qed.

(** X8. An input that is no stored title but whose lowercased form is the
    lowercased title of two or more rows makes [recommend] raise. *)
Theorem X8_case_variants_raise (eng : Engine) (t : string) (top_n : Z) :
  ~ In (Some t) (titles eng) ->
  1 < count_occ title_eq_dec (map (option_map lower) (titles eng))
                (Some (lower t)) ->
  recommend eng t top_n = ValueError.
Proof.
  intros Hex Hc.
  assert (Hin : In (Some (lower t)) (map (option_map lower) (titles eng))).
  { apply (count_occ_In title_eq_dec). lia. }
  assert (Hr : exists i j rest, resolve eng t = Some (Rows i j rest)).
  { rewrite (resolve_lower eng t Hex Hin). unfold series_get.
    apply lookup_of_many.
    rewrite title_to_index_lower_eq, values_at_make_length. exact Hc. }
  destruct Hr as [i [j [rest Hr]]]. unfold recommend. now rewrite Hr.
Qed.

(** X9. When an input resolves to a single row, that row exists, its
    title equals the input up to case and is stored in no other row; if
    the input itself is a stored title, the row's title is the input. *)
Theorem X9_resolved_row (eng : Engine) (t : string) (index : nat) :
  resolve eng t = Some (Scalar index) ->
  index < List.length (df eng)
  /\ exists t', nth_error (titles eng) index = Some (Some t')
                /\ lower t' = lower t
                /\ count_occ title_eq_dec (titles eng) (Some t') = 1
                /\ (In (Some t) (titles eng) -> t' = t).
Proof.
  intros Hres.
  destruct (resolve_scalar_row eng t index Hres) as [t' [Hnth [Hl Hone]]].
  split.
  { rewrite <- (length_map title). apply nth_error_Some.
    unfold titles in Hnth. congruence. }
  exists t'. repeat split; auto.
  intros Hin. rewrite (resolve_exact eng t Hin), title_to_index_eq in Hres.
  unfold series_get in Hres. apply lookup_of_scalar in Hres.
  assert (Hi : In index (values_at (make_series 0 (titles eng)) t))
    by (rewrite Hres; now left).
  apply values_at_make_In in Hi. rewrite Nat.sub_0_r in Hi.
  destruct Hi as [_ Hi]. congruence.
Qed.

(** ** More on [recommend] *)

Section RecommendMore.

Variable eng : Engine.
Variable index : nat.

(** A limit that the list has already passed never stops the loop. *)
Lemma recommend_loop_unbounded (top_n : Z) :
  forall dists seen_titles acc,
    Forall (fun d => fst d < List.length (df eng)) dists ->
    (top_n <= Z.of_nat (List.length acc))%Z ->
    recommend_loop eng index top_n dists seen_titles acc
    = Ok (acc ++ emit eng index dists seen_titles).
Proof.
  induction dists as [|[idx sc] rest IH]; intros seen_titles acc Hrange Hlen.
  - cbn [recommend_loop emit]. now rewrite app_nil_r.
  - inversion Hrange as [|? ? Hidx Hrest]; subst. cbn [fst] in Hidx.
    cbn [recommend_loop emit].
    destruct (idx =? index); [now apply IH|].
    destruct (nth_error (df eng) idx) as [row|] eqn:Hrow.
    2:{ apply nth_error_None in Hrow. lia. }
    destruct (seen (title row) seen_titles); [now apply IH|].
    rewrite length_app. cbn [List.length].
    destruct (Z.eqb_spec (Z.of_nat (List.length acc + 1)) top_n) as [E|E];
      [lia|].
    rewrite IH; [|exact Hrest|rewrite length_app; cbn [List.length]; lia].
    now rewrite <- app_assoc.
Qed.

(** The rows of a call, for any limit. *)
Lemma recommend_rows_any (top_n : Z) :
  recommend_rows eng index top_n
  = Ok (if (0 <? top_n)%Z
        then firstn (Z.to_nat top_n) (emit eng index (distances eng index) [])
        else emit eng index (distances eng index) []).
Proof.
  destruct (Z.ltb_spec 0 top_n) as [H|H].
  - now apply recommend_rows_emit.
  - unfold recommend_rows.
    rewrite recommend_loop_unbounded;
      [reflexivity|apply distances_range|cbn; lia].
Qed.

Lemma emit_fst_In (dists : list (nat * Q)) :
  forall seen_titles p,
    In p (emit eng index dists seen_titles) ->
    exists row s, In (fst p, s) dists
                  /\ nth_error (df eng) (fst p) = Some row
                  /\ snd p = make_rec row s.
Proof.
  induction dists as [|[idx sc] rest IH]; intros seen_titles p;
    cbn [emit]; [intros []|].
  assert (Hrest : forall sn, In p (emit eng index rest sn) ->
            exists row s, In (fst p, s) ((idx, sc) :: rest)
                          /\ nth_error (df eng) (fst p) = Some row
                          /\ snd p = make_rec row s).
  { intros sn H. apply IH in H. destruct H as [row [s [H1 H2]]].
    exists row, s. split; [now right|exact H2]. }
  destruct (idx =? index); [apply Hrest|].
  destruct (nth_error (df eng) idx) as [row|] eqn:Hrow; [|intros []].
  destruct (seen (title row) seen_titles); [apply Hrest|].
  intros [<-|H]; [|now apply (Hrest _ H)].
  exists row, sc. cbn. repeat split; auto.
Qed.

Lemma emit_sorted (P : nat -> nat -> Prop) (dists : list (nat * Q)) :
  StronglySorted (fun a b => P (fst a) (fst b)) dists ->
  forall seen_titles,
    StronglySorted (fun p q => P (fst p) (fst q))
                   (emit eng index dists seen_titles).
Proof.
  induction 1 as [|[idx sc] rest Hs IH Hall]; intros seen_titles;
    cbn [emit]; [constructor|].
  destruct (idx =? index); [apply IH|].
  destruct (nth_error (df eng) idx) as [row|]; [|constructor].
  destruct (seen (title row) seen_titles); [apply IH|].
  constructor; [apply IH|].
  rewrite Forall_forall in *. intros q Hq. cbn [fst].
  apply emit_fst_In in Hq. destruct Hq as [_ [s [Hin _]]].
  apply (Hall _ Hin).
Qed.

Lemma distances_sorted_by_row :
  StronglySorted
    (fun a b => (sim eng index (fst b) <= sim eng index (fst a))%Q)
    (distances eng index).
Proof.
  assert (Hs : StronglySorted ranks_before (distances eng index)).
  { apply sort_desc_sorted. rewrite enumerate_row_fst.
    apply seq_strongly_sorted. }
  assert (Hin : forall a, In a (distances eng index) ->
                          snd a = sim eng index (fst a)).
  { intros [i s] H. apply distances_In in H. cbn. tauto. }
  induction Hs as [|a l Hs IH Ha]; constructor.
  - apply IH. intros b Hb. apply Hin. now right.
  - rewrite Forall_forall in *. intros b Hb.
    rewrite <- (Hin a (or_introl eq_refl)), <- (Hin b (or_intror Hb)).
    apply ranks_before_score. now apply Ha.
Qed.

End RecommendMore.

Lemma StronglySorted_firstn {A : Type} (R : A -> A -> Prop) (n : nat)
    (l : list A) :
  StronglySorted R l -> StronglySorted R (firstn n l).
Proof.
  intros H. revert n.
  induction H as [|a l Hs IH Ha]; intros [|n]; cbn [firstn];
    try constructor.
  - apply IH.
  - now apply Forall_firstn.
Qed.

(** X11. With a limit of zero or less the loop never stops early: for a
    title resolving to one row, [recommend] returns one dictionary per
    distinct title of the other rows. *)
Theorem X11_nonpositive_limit (eng : Engine) (t : string) (index : nat)
    (top_n : Z) :
  resolve eng t = Some (Scalar index) ->
  (top_n <= 0)%Z ->
  exists recs,
    recommend eng t top_n = Ok recs
    /\ List.length recs = distinct_count (other_titles eng index)
    /\ NoDup (map rec_title recs).
Proof.
  intros Hres Hn.
  exists (map snd (emit eng index (distances eng index) [])).
  split.
  { unfold recommend. rewrite Hres, recommend_rows_any.
    destruct (Z.ltb_spec 0 top_n); [lia|reflexivity]. }
  split.
  - now rewrite length_map, emit_length.
  - rewrite map_map. apply (emit_NoDup eng index).
Qed.

(** X12. Asking for fewer recommendations gives a prefix: for
    [0 < n <= m], the answer for [n] is the first [n] entries of the
    answer for [m] (and raises when that one raises). *)
Theorem X12_limit_prefix (eng : Engine) (t : string) (n m : Z) :
  (0 < n <= m)%Z ->
  recommend eng t n = result_map (firstn (Z.to_nat n)) (recommend eng t m).
Proof.
  intros Hnm. unfold recommend.
  destruct (resolve eng t) as [[index|i j rest]|]; cbn [result_map].
  - rewrite !recommend_rows_any.
    destruct (Z.ltb_spec 0 n); [|lia]. destruct (Z.ltb_spec 0 m); [|lia].
    cbn [result_map]. f_equal.
    rewrite <- !firstn_map, firstn_firstn.
    f_equal. lia.
  - reflexivity.
  - now rewrite firstn_nil.
Qed.

(** X13. For a title resolving to row [index], the dictionaries come in
    order of non-increasing similarity to that row.  Each is built from a
    row of the table and carries that row's title, genre, type and source;
    its similarity is the float nearest to the matrix entry rounded to
    four decimals, and that four-decimal value is within 0.00005 of the
    entry and non-increasing along the list. *)
Theorem X13_recommend_order (eng : Engine) (t : string) (index : nat)
    (top_n : Z) :
  resolve eng t = Some (Scalar index) ->
  exists picks : list (nat * Rec),
    recommend_rows eng index top_n = Ok picks
    /\ recommend eng t top_n = Ok (map snd picks)
    /\ StronglySorted
         (fun p q => (sim eng index (fst q) <= sim eng index (fst p))%Q)
         picks
    /\ StronglySorted
         (fun p q => (decimal4 (sim eng index (fst q))
                      <= decimal4 (sim eng index (fst p)))%Q)
         picks
    /\ Forall (fun p =>
                 exists row,
                   nth_error (df eng) (fst p) = Some row
                   /\ snd p = make_rec row (sim eng index (fst p))
                   /\ rec_title (snd p) = title row
                   /\ rec_genre (snd p) = genre row
                   /\ rec_type (snd p) = type_ row
                   /\ rec_source (snd p) = source row
                   /\ rec_similarity (snd p)
                      = nearest_double (decimal4 (sim eng index (fst p)))
                   /\ (sim eng index (fst p) - (1 # 20000)
                       <= decimal4 (sim eng index (fst p)))%Q
                   /\ (decimal4 (sim eng index (fst p))
                       <= sim eng index (fst p) + (1 # 20000))%Q)
              picks.
Proof.
  intros Hres.
  set (all := emit eng index (distances eng index) []).
  set (picks := if (0 <? top_n)%Z then firstn (Z.to_nat top_n) all else all).
  assert (Hsorted_all : StronglySorted
            (fun p q => (sim eng index (fst q) <= sim eng index (fst p))%Q)
            all).
  { apply (emit_sorted eng index
             (fun i j => (sim eng index j <= sim eng index i)%Q)).
    apply distances_sorted_by_row. }
  assert (Hbuilt_all : Forall (fun p =>
            exists row, nth_error (df eng) (fst p) = Some row
                        /\ snd p = make_rec row (sim eng index (fst p))) all).
  { rewrite Forall_forall. intros p Hp.
    apply emit_fst_In in Hp. destruct Hp as [row [s [Hin [Hrow Hrec]]]].
    apply distances_In in Hin. destruct Hin as [_ ->]. now exists row. }
  assert (Hsorted : StronglySorted
            (fun p q => (sim eng index (fst q) <= sim eng index (fst p))%Q)
            picks).
  { unfold picks. destruct (0 <? top_n)%Z;
      [now apply StronglySorted_firstn|exact Hsorted_all]. }
  assert (Hbuilt : Forall (fun p =>
            exists row, nth_error (df eng) (fst p) = Some row
                        /\ snd p = make_rec row (sim eng index (fst p)))
            picks).
  { unfold picks. destruct (0 <? top_n)%Z;
      [now apply Forall_firstn|exact Hbuilt_all]. }
  exists picks.
  split; [apply recommend_rows_any|]. split.
  { unfold recommend. now rewrite Hres, recommend_rows_any. }
  split; [exact Hsorted|]. split.
  - clear Hsorted_all Hbuilt_all Hbuilt.
    induction Hsorted as [|p l Hs IH Hp]; constructor; [exact IH|].
    eapply Forall_impl; [|exact Hp]. intros q. apply decimal4_mono.
  - eapply Forall_impl; [|exact Hbuilt].
    intros p [row [Hrow Hrec]]. exists row.
    rewrite Hrec. cbn [rec_title rec_genre rec_type rec_source
                        rec_similarity make_rec].
    repeat split; auto; apply decimal4_error.
Qed.

(** ** More on [search_titles] *)

Lemma append_empty_r (s : string) : (s ++ "")%string = s.
Proof. induction s as [|c s IH]; cbn; congruence. Qed.

Lemma prefix_iff (needle hay : string) :
  String.prefix needle hay = true
  <-> exists post, hay = (needle ++ post)%string.
Proof.
  revert hay. induction needle as [|c n IH]; intros hay.
  - split; [intros _; now exists hay|intros _; now destruct hay].
  - destruct hay as [|h hay]; cbn [String.prefix].
    + split; [discriminate|]. intros [post H]. discriminate.
    + destruct (ascii_dec c h) as [->|Hne].
      * rewrite IH. split; intros [post H]; exists post.
        -- cbn. now rewrite H.
        -- cbn in H. congruence.
      * split; [discriminate|]. intros [post H]. cbn in H. congruence.
Qed.

Lemma contains_iff (hay needle : string) :
  contains hay needle = true
  <-> exists pre post, hay = (pre ++ needle ++ post)%string.
Proof.
  induction hay as [|h hay IH]; cbn [contains].
  - rewrite orb_false_r, prefix_iff. split.
    + intros [post H]. now exists "", post.
    + intros [pre [post H]]. destruct pre; [now exists post|discriminate].
  - rewrite orb_true_iff, prefix_iff, IH. split.
    + intros [[post H]|[pre [post H]]].
      * now exists "", post.
      * exists (String h pre), post. cbn. now rewrite H.
    + intros [pre [post H]]. destruct pre as [|p pre].
      * left. now exists post.
      * right. exists pre, post. cbn in H. congruence.
Qed.

Lemma search_loop_stops (query_lower : string) (limit : Z) :
  forall ts matches,
    (limit <= Z.of_nat (List.length matches))%Z ->
    search_loop query_lower limit ts matches
    = matches ++ firstn 1 (filter (fun t => contains (lower t) query_lower) ts).
Proof.
  induction ts as [|t ts IH]; intros matches Hlen; cbn [search_loop filter].
  - now rewrite app_nil_r.
  - destruct (contains (lower t) query_lower); [|now apply IH].
    rewrite length_app. cbn [List.length firstn].
    destruct (Z.geb_spec (Z.of_nat (List.length matches + 1)) limit);
      [reflexivity|lia].
Qed.

Lemma search_titles_firstn (eng : Engine) (query : string) (limit : Z) :
  (0 < limit)%Z ->
  search_titles eng query limit
  = firstn (Z.to_nat limit)
           (filter (fun t => contains (lower t) (lower query))
                   (dropna (titles eng))).
Proof.
  intros Hpos. unfold search_titles.
  rewrite search_loop_firstn by (cbn; lia).
  cbn [List.length app]. now rewrite Nat.sub_0_r.
Qed.

(** X14. With a limit of zero or less [search_titles] still returns the
    first matching title, and only that one. *)
Theorem X14_search_nonpositive_limit (eng : Engine) (query : string)
    (limit : Z) :
  (limit <= 0)%Z ->
  search_titles eng query limit
  = firstn 1 (filter (fun t => contains (lower t) (lower query))
                     (dropna (titles eng)))
  /\ List.length (search_titles eng query limit) <= 1.
Proof.
  intros Hl.
  assert (H : search_titles eng query limit
              = firstn 1 (filter (fun t => contains (lower t) (lower query))
                                 (dropna (titles eng)))).
  { unfold search_titles. now rewrite search_loop_stops by (cbn; lia). }
  split; [exact H|]. rewrite H, length_firstn. lia.
Qed.

(** X15. Every title contains the empty string: the empty query returns
    the first [limit] non-null titles of the table. *)
Theorem X15_search_empty_query (eng : Engine) (limit : Z) :
  (0 < limit)%Z ->
  search_titles eng "" limit = firstn (Z.to_nat limit) (dropna (titles eng)).
Proof.
  intros Hpos. rewrite search_titles_firstn by exact Hpos.
  f_equal. induction (dropna (titles eng)) as [|t ts IH]; [reflexivity|].
  cbn [filter]. replace (contains (lower t) (lower "")) with true.
  - now rewrite IH.
  - symmetry. apply contains_iff. now exists "", (lower t).
Qed.

(** X16. Each title returned by [search_titles] has the lowercased query
    as a contiguous part of its lowercased text.  When the limit is at
    least the number of non-null titles nothing is cut off: every stored
    title with that property is returned, in particular a stored title
    used as the query. *)
Theorem X16_search_substring (eng : Engine) (query : string) (limit : Z) :
  (0 < limit)%Z ->
  Forall (fun t => exists pre post,
                     lower t = (pre ++ lower query ++ post)%string)
         (search_titles eng query limit)
  /\ ((Z.of_nat (List.length (dropna (titles eng))) <= limit)%Z ->
      (forall t pre post,
          In (Some t) (titles eng) ->
          lower t = (pre ++ lower query ++ post)%string ->
          In t (search_titles eng query limit))
      /\ (In (Some query) (titles eng) ->
          In query (search_titles eng query limit))).
Proof.
  intros Hpos. rewrite search_titles_firstn by exact Hpos. split.
  - apply Forall_firstn. rewrite Forall_forall. intros t Ht.
    apply filter_In in Ht. now apply contains_iff.
  - intros Hlen.
    assert (Hall : forall t pre post,
               In (Some t) (titles eng) ->
               lower t = (pre ++ lower query ++ post)%string ->
               In t (firstn (Z.to_nat limit)
                       (filter (fun t => contains (lower t) (lower query))
                               (dropna (titles eng))))).
    { intros t pre post Hin Hsub.
      rewrite firstn_all2.
      - apply filter_In. split; [now apply dropna_In|].
        apply contains_iff. now exists pre, post.
      - pose proof (filter_length_le
                      (fun t => contains (lower t) (lower query))
                      (dropna (titles eng))). lia. }
    split; [exact Hall|].
    intros Hin. apply (Hall query "" "" Hin).
    cbn. symmetry. apply append_empty_r.
Qed.

(** ** HTTP handlers *)

Lemma clamp_range (lo hi x : Z) :
  (lo <= hi)%Z -> (lo <= clamp lo hi x <= hi)%Z.
Proof. unfold clamp. lia. Qed.

Lemma param_present (t : string) :
  t <> "" -> param_missing (Some t) = false.
Proof.
  intros H. cbn. now apply String.eqb_neq.
Qed.

Lemma lower_nonempty (q : string) : q <> "" -> lower q <> "".
Proof. destruct q; [congruence|discriminate]. Qed.

(** A title resolving to one row: how it was found. *)
Lemma resolve_scalar_cases (eng : Engine) (t : string) (index : nat) :
  resolve eng t = Some (Scalar index) ->
  (In (Some t) (titles eng)
   /\ values_at (make_series 0 (titles eng)) t = [index])
  \/ (~ In (Some t) (titles eng)
      /\ values_at (make_series 0 (map (option_map lower) (titles eng)))
                   (lower t) = [index]).
Proof.
  unfold resolve.
  destruct (series_contains (title_to_index eng) t) eqn:Hex.
  - rewrite title_to_index_eq. unfold series_get. intros H.
    apply lookup_of_scalar in H. left. split; [|exact H].
    now apply exact_contains.
  - destruct (series_contains (title_to_index_lower eng) (lower t));
      [|discriminate].
    rewrite title_to_index_lower_eq. unfold series_get. intros H.
    apply lookup_of_scalar in H. right. split; [|exact H].
    intros Hin. apply exact_contains in Hin. congruence.
Qed.

(** X17. The [/recommend] handler, for a non-empty title and whatever
    [top_n] was sent: an unknown title is answered "not found" with the
    five-title search as suggestions; a title whose label is repeated is
    answered with the server error; a title resolving to one row yields
    between 1 and 50 recommendations, as many as the clamped [top_n] and
    the other rows' distinct titles allow, answered as found when
    [jsonify] encodes them and with the server error when it does not; it
    is answered "not found" when the other rows have no title to offer.
    Without a title the answer is "missing parameter". *)
Theorem X17_recommend_endpoint (encodes : list Rec -> bool) (eng : Engine)
    (t : string) (top_n : Z) :
  get_recommendations encodes eng None top_n = RecMissingTitle
  /\ get_recommendations encodes eng (Some "") top_n = RecMissingTitle
  /\ (t <> "" ->
      (resolve eng t = None ->
       get_recommendations encodes eng (Some t) top_n
       = RecNotFound (search_titles eng t 5))
      /\ ((exists i j rest, resolve eng t = Some (Rows i j rest)) ->
          get_recommendations encodes eng (Some t) top_n = RecServerError)
      /\ (forall index,
             resolve eng t = Some (Scalar index) ->
             (distinct_count (other_titles eng index) = 0 ->
              get_recommendations encodes eng (Some t) top_n
              = RecNotFound (search_titles eng t 5))
             /\ (0 < distinct_count (other_titles eng index) ->
                 exists recs,
                   recommend eng t (clamp 1 50 top_n) = Ok recs
                   /\ List.length recs
                      = Nat.min (Z.to_nat (clamp 1 50 top_n))
                                (distinct_count (other_titles eng index))
                   /\ 1 <= List.length recs <= 50
                   /\ get_recommendations encodes eng (Some t) top_n
                      = (if encodes recs
                         then RecFound t (List.length recs) recs
                         else RecServerError)))).
Proof.
  split; [reflexivity|]. split; [reflexivity|]. intros Hne.
  pose proof (clamp_range 1 50 top_n ltac:(lia)) as Hc.
  unfold get_recommendations. rewrite (param_present t Hne).
  cbn [param_text]. unfold recommend.
  split; [|split].
  - intros ->. reflexivity.
  - intros [i [j [rest ->]]]. reflexivity.
  - intros index ->. rewrite recommend_rows_any.
    destruct (Z.ltb_spec 0 (clamp 1 50 top_n)) as [_|]; [|lia].
    cbn [result_map].
    set (picks := firstn (Z.to_nat (clamp 1 50 top_n))
                         (emit eng index (distances eng index) [])).
    assert (Hlen : List.length (map snd picks)
            = Nat.min (Z.to_nat (clamp 1 50 top_n))
                      (distinct_count (other_titles eng index))).
    { unfold picks. now rewrite length_map, length_firstn, emit_length. }
    destruct (map snd picks) as [|r rs] eqn:Hrecs.
    + split; [reflexivity|]. cbn [List.length] in Hlen. lia.
    + split; [cbn [List.length] in Hlen; lia|].
      intros Hpos. exists (r :: rs).
      split; [reflexivity|]. split; [exact Hlen|].
      split; [rewrite Hlen; lia|reflexivity].
Qed.

Lemma filter_head {A : Type} (f : A -> bool) (l : list A) (x : A)
    (rest : list A) :
  filter f l = x :: rest ->
  exists i, nth_error l i = Some x /\ f x = true
            /\ forall j y, j < i -> nth_error l j = Some y -> f y = false.
Proof.
  induction l as [|a l IH]; cbn [filter]; [discriminate|].
  destruct (f a) eqn:Ha.
  - intros [= -> _]. exists 0. repeat split; auto. intros j y Hj. lia.
  - intros H. destruct (IH H) as [i [Hn [Hx Hbefore]]].
    exists (S i). repeat split; auto.
    intros [|j] y Hj Hy; cbn in Hy; [congruence|].
    apply (Hbefore j); [lia|exact Hy].
Qed.

Lemma filter_empty {A : Type} (f : A -> bool) (l : list A) :
  filter f l = [] <-> forall x, In x l -> f x = false.
Proof.
  induction l as [|a l IH]; cbn [filter In]; [tauto|].
  destruct (f a) eqn:Ha.
  - split; [discriminate|]. intros H. rewrite (H a) in Ha; [discriminate|auto].
  - rewrite IH. split; [|auto]. intros H x [<-|Hx]; auto.
Qed.

Lemma title_is_true (t : string) (row : Row) :
  title_is t row = true <-> title row = Some t.
Proof.
  unfold title_is. destruct (title row) as [x|].
  - rewrite String.eqb_eq. split; congruence.
  - split; discriminate.
Qed.

Lemma title_lower_is_true (t : string) (row : Row) :
  title_lower_is t row = true
  <-> option_map lower (title row) = Some (lower t).
Proof.
  unfold title_lower_is. destruct (title row) as [x|]; cbn.
  - rewrite String.eqb_eq. split; congruence.
  - split; discriminate.
Qed.

(** X18. The [/info] handler knows the same titles as [recommend]: for a
    non-empty title it answers "not found" exactly when [recommend] finds
    no index; a title that [recommend] resolves to one row is answered
    with that row; a title stored in the table is answered with the first
    row that has it (also when several rows have it). *)
Theorem X18_info_endpoint (eng : Engine) (t : string) :
  t <> "" ->
  (info eng (Some t) = InfoNotFound <-> resolve eng t = None)
  /\ (forall index,
         resolve eng t = Some (Scalar index) ->
         exists row, nth_error (df eng) index = Some row
                     /\ info eng (Some t) = InfoFound (info_dict row))
  /\ (In (Some t) (titles eng) ->
      exists i row,
        nth_error (df eng) i = Some row
        /\ title row = Some t
        /\ (forall j row', j < i -> nth_error (df eng) j = Some row' ->
                           title row' <> Some t)
        /\ info eng (Some t) = InfoFound (info_dict row)).
Proof.
  intros Hne. unfold info. rewrite (param_present t Hne). cbn [param_text].
  assert (Hexact_in : forall row, In row (filter (title_is t) (df eng)) ->
                                  In (Some t) (titles eng)).
  { intros row H. apply filter_In in H. destruct H as [Hin Ht].
    apply title_is_true in Ht. rewrite <- Ht. now apply in_map. }
  assert (Hlow_in : forall row, In row (filter (title_lower_is t) (df eng)) ->
            In (Some (lower t)) (map (option_map lower) (titles eng))).
  { intros row H. apply filter_In in H. destruct H as [Hin Ht].
    apply title_lower_is_true in Ht. rewrite <- Ht.
    unfold titles. rewrite map_map. now apply (in_map (fun r => option_map lower (title r))). }
  split; [|split].
  - rewrite resolve_none_iff. split.
    + intros Hnf Hin.
      unfold titles in Hin. rewrite map_map in Hin.
      apply in_map_iff in Hin. destruct Hin as [row [Hrow Hin]].
      apply title_lower_is_true in Hrow.
      assert (Hf : In row (filter (title_lower_is t) (df eng)))
        by (apply filter_In; auto).
      revert Hnf Hf.
      destruct (filter (title_is t) (df eng)); [|discriminate].
      destruct (filter (title_lower_is t) (df eng));
        [intros _ []|discriminate].
    + intros Hno.
      destruct (filter (title_is t) (df eng)) as [|row rest] eqn:He.
      * destruct (filter (title_lower_is t) (df eng)) as [|row rest] eqn:Hl;
          [reflexivity|].
        exfalso. apply Hno, (Hlow_in row). now left.
      * exfalso. apply Hno.
        apply (in_map (option_map lower) (titles eng) (Some t)).
        apply (Hexact_in row). now left.
  - intros index Hres.
    destruct (resolve_scalar_cases eng t index Hres) as [[Hin Hv]|[Hnin Hv]].
    + destruct (filter (title_is t) (df eng)) as [|row rest] eqn:He.
      { exfalso. unfold titles in Hin. apply in_map_iff in Hin.
        destruct Hin as [row [Hrow Hin]].
        pose proof (proj1 (filter_empty _ _) He row Hin) as Hf.
        apply title_is_true in Hrow. congruence. }
      destruct (filter_head _ _ _ _ He) as [i [Hn [Hx _]]].
      apply title_is_true in Hx.
      assert (Hi : In i (values_at (make_series 0 (titles eng)) t)).
      { apply values_at_make_In. rewrite Nat.sub_0_r. split; [lia|].
        unfold titles. rewrite nth_error_map, Hn. cbn. now rewrite Hx. }
      rewrite Hv in Hi. destruct Hi as [<-|[]]. now exists row.
    + destruct (filter (title_is t) (df eng)) as [|row rest] eqn:He.
      2:{ exfalso. apply Hnin, (Hexact_in row). now left. }
      destruct (filter (title_lower_is t) (df eng)) as [|row rest] eqn:Hl.
      { exfalso.
        assert (Hi : In index
                  (values_at (make_series 0
                                (map (option_map lower) (titles eng)))
                             (lower t))) by (rewrite Hv; now left).
        apply values_at_make_In in Hi. rewrite Nat.sub_0_r in Hi.
        destruct Hi as [_ Hi]. unfold titles in Hi.
        rewrite map_map, nth_error_map in Hi.
        destruct (nth_error (df eng) index) as [row|] eqn:Hrow;
          [|discriminate].
        cbn in Hi. injection Hi as Hi. apply title_lower_is_true in Hi.
        pose proof (proj1 (filter_empty _ _) Hl row
                      (nth_error_In _ _ Hrow)). congruence. }
      destruct (filter_head _ _ _ _ Hl) as [i [Hn [Hx _]]].
      apply title_lower_is_true in Hx.
      assert (Hi : In i (values_at (make_series 0
                                      (map (option_map lower) (titles eng)))
                                   (lower t))).
      { apply values_at_make_In. rewrite Nat.sub_0_r. split; [lia|].
        unfold titles. rewrite map_map, nth_error_map, Hn. cbn.
        now rewrite Hx. }
      rewrite Hv in Hi. destruct Hi as [<-|[]]. now exists row.
  - intros Hin.
    destruct (filter (title_is t) (df eng)) as [|row rest] eqn:He.
    { exfalso. unfold titles in Hin. apply in_map_iff in Hin.
      destruct Hin as [row [Hrow Hin]].
      pose proof (proj1 (filter_empty _ _) He row Hin) as Hf.
      apply title_is_true in Hrow. congruence. }
    destruct (filter_head _ _ _ _ He) as [i [Hn [Hx Hbefore]]].
    exists i, row. repeat split; auto.
    + now apply title_is_true.
    + intros j row' Hj Hrow' Ht. apply title_is_true in Ht.
      rewrite (Hbefore j row' Hj Hrow') in Ht. discriminate.
Qed.

(** X19. The [/search] handler: without a query (absent or empty) it
    answers "missing parameter"; otherwise it echoes the lowercased query
    and returns what [search_titles] returns for the limit clamped to
    [1,100], so at most 100 titles, each a stored title containing the
    query case-insensitively, with their number as count. *)
Theorem X19_search_endpoint (eng : Engine) (q : string) (limit : Z) :
  search eng None limit = SearchMissingQuery
  /\ search eng (Some "") limit = SearchMissingQuery
  /\ (q <> "" ->
      exists results,
        search eng (Some q) limit
        = SearchFound (lower q) (List.length results) results
        /\ results = search_titles eng q (clamp 1 100 limit)
        /\ List.length results <= 100
        /\ Forall (fun t => In (Some t) (titles eng)
                            /\ contains (lower t) (lower q) = true)
                  results).
Proof.
  split; [reflexivity|]. split; [reflexivity|]. intros Hne.
  pose proof (clamp_range 1 100 limit ltac:(lia)) as Hc.
  exists (search_titles eng q (clamp 1 100 limit)).
  split.
  { unfold search. cbn [param_text].
    apply lower_nonempty, String.eqb_neq in Hne. rewrite Hne. reflexivity. }
  split; [reflexivity|].
  rewrite search_titles_firstn by lia. split.
  - rewrite length_firstn. lia.
  - apply Forall_firstn. rewrite Forall_forall. intros t Ht.
    apply filter_In in Ht. destruct Ht as [Hin Hct].
    split; [now apply dropna_In|exact Hct].
Qed.

(** ** The [/titles] listing *)

Lemma str_lt_trans (a b c : string) : str_lt a b -> str_lt b c -> str_lt a c.
Proof.
  unfold str_lt, String.ltb. intros Hab Hbc.
  destruct (String.compare a b) eqn:Eab; try discriminate.
  destruct (String.compare b c) eqn:Ebc; try discriminate.
  apply String_as_OT.cmp_lt in Eab, Ebc.
  pose proof (String_as_OT.lt_trans _ _ _ Eab Ebc) as Hac.
  apply String_as_OT.cmp_lt in Hac. unfold String_as_OT.cmp in Hac.
  now rewrite Hac.
Qed.

Lemma str_not_lt (x y : string) :
  String.ltb y x = false -> x = y \/ str_lt x y.
Proof.
  unfold str_lt, String.ltb. intros H.
  destruct (String.compare y x) eqn:E; try discriminate.
  - left. symmetry. now apply String.compare_eq_iff.
  - right. rewrite String.compare_antisym, E. reflexivity.
Qed.

Lemma str_lt_irrefl (a : string) : ~ str_lt a a.
Proof.
  unfold str_lt, String.ltb. intros H.
  destruct (String.compare a a) eqn:E; try discriminate.
  apply String_as_OT.cmp_lt in E.
  now apply (String_as_OT.lt_not_eq _ _ E).
Qed.

Lemma insert_sorted_perm (x : string) (l : list string) :
  Permutation (x :: l) (insert_sorted x l).
Proof.
  induction l as [|y l IH]; cbn [insert_sorted]; [reflexivity|].
  destruct (String.ltb y x); [|reflexivity].
  rewrite perm_swap. now apply perm_skip.
Qed.

Lemma sorted_perm (l : list string) : Permutation l (sorted l).
Proof.
  induction l as [|x l IH]; cbn [sorted]; [reflexivity|].
  rewrite <- insert_sorted_perm. now apply perm_skip.
Qed.

Lemma insert_sorted_strict (x : string) (l : list string) :
  StronglySorted str_lt l -> ~ In x l ->
  StronglySorted str_lt (insert_sorted x l).
Proof.
  induction l as [|y l IH]; intros Hs Hx; cbn [insert_sorted].
  - repeat constructor.
  - inversion Hs as [|? ? Hs' Hy]; subst.
    destruct (String.ltb y x) eqn:Hyx.
    + constructor; [apply IH; [exact Hs'|intros H; apply Hx; now right]|].
      rewrite Forall_forall in *. intros z Hz.
      apply (Permutation_in _ (Permutation_sym (insert_sorted_perm x l))) in Hz.
      destruct Hz as [<-|Hz]; [exact Hyx|now apply Hy].
    + destruct (str_not_lt x y Hyx) as [->|Hlt];
        [exfalso; apply Hx; now left|].
      constructor; [exact Hs|]. constructor; [exact Hlt|].
      rewrite Forall_forall in *. intros z Hz.
      apply (str_lt_trans x y z Hlt). now apply Hy.
Qed.

Lemma sorted_strict (l : list string) :
  NoDup l -> StronglySorted str_lt (sorted l).
Proof.
  induction 1 as [|x l Hx Hnd IH]; cbn [sorted]; [constructor|].
  apply insert_sorted_strict; [exact IH|].
  intros H. apply Hx.
  now apply (Permutation_in _ (Permutation_sym (sorted_perm l))).
Qed.

Lemma unique_from_In (xs : list string) :
  forall seen_vals x,
    In x (unique_from seen_vals xs) <-> In x xs /\ ~ In x seen_vals.
Proof.
  induction xs as [|y xs IH]; intros seen_vals x; cbn [unique_from In].
  - tauto.
  - destruct (in_dec string_dec y seen_vals) as [Hy|Hy].
    + rewrite IH. split; [tauto|]. intros [[<-|H] Hn]; tauto.
    + cbn [In]. rewrite IH. cbn [In]. split.
      * intros [<-|[H Hn]]; [tauto|]. split; [tauto|]. intros Hx. apply Hn.
        now right.
      * intros [[<-|H] Hn]; [tauto|].
        destruct (string_dec y x) as [->|Hne]; [tauto|].
        right. split; [exact H|]. intros [E|E]; [congruence|tauto].
Qed.

Lemma unique_from_NoDup (xs : list string) :
  forall seen_vals, NoDup (unique_from seen_vals xs).
Proof.
  induction xs as [|y xs IH]; intros seen_vals; cbn [unique_from];
    [constructor|].
  destruct (in_dec string_dec y seen_vals); [apply IH|].
  constructor; [|apply IH].
  intros H. apply unique_from_In in H. destruct H as [_ H]. apply H.
  now left.
Qed.

(** X20. The [/titles] listing holds exactly the non-null titles of the
    table, each once, in strictly ascending order; its count is the
    number of distinct non-null titles, which is at most the number of
    rows. *)
Theorem X20_titles_listing (eng : Engine) :
  StronglySorted str_lt (snd (titles_endpoint eng))
  /\ NoDup (snd (titles_endpoint eng))
  /\ (forall t, In t (snd (titles_endpoint eng)) <-> In (Some t) (titles eng))
  /\ fst (titles_endpoint eng) = List.length (snd (titles_endpoint eng))
  /\ fst (titles_endpoint eng)
     = List.length (nodup string_dec (dropna (titles eng)))
  /\ fst (titles_endpoint eng) <= List.length (df eng).
Proof.
  unfold titles_endpoint. cbn [fst snd].
  set (u := unique (dropna (titles eng))).
  assert (Hnd : NoDup u) by apply unique_from_NoDup.
  assert (Hin : forall t, In t u <-> In (Some t) (titles eng)).
  { intros t. unfold u, unique. rewrite unique_from_In, dropna_In.
    cbn [In]. tauto. }
  assert (Hp : Permutation u (sorted u)) by apply sorted_perm.
  assert (Hlen : List.length (sorted u)
                 = List.length (nodup string_dec (dropna (titles eng)))).
  { rewrite <- (Permutation_length Hp).
    apply Nat.le_antisymm; apply NoDup_incl_length;
      try exact Hnd; try apply NoDup_nodup;
      intros t Ht.
    - apply nodup_In, dropna_In. now apply Hin.
    - apply Hin, dropna_In. now apply nodup_In in Ht. }
  split; [now apply sorted_strict|].
  split; [now apply (Permutation_NoDup Hp)|].
  split.
  { intros t. rewrite <- Hin. split; intros H.
    - now apply (Permutation_in _ (Permutation_sym Hp)).
    - now apply (Permutation_in _ Hp). }
  split; [reflexivity|]. split; [exact Hlen|].
  rewrite <- (Permutation_length Hp).
  assert (Hle : List.length u <= List.length (dropna (titles eng))).
  { apply NoDup_incl_length; [exact Hnd|].
    intros t Ht. apply dropna_In. now apply Hin. }
  assert (Hdrop : forall ts, List.length (dropna ts) <= List.length ts).
  { induction ts as [|[x|] ts IH]; cbn; lia. }
  pose proof (Hdrop (titles eng)) as Hd.
  unfold titles in Hd at 2. rewrite length_map in Hd. lia.
Qed.

(** ** Random titles *)

Lemma take_positions_spec {A : Type} (xs : list A) (ps : list nat) :
  Forall (fun p => p < List.length xs) ps ->
  List.length (take_positions xs ps) = List.length ps
  /\ Forall (fun x => In x xs) (take_positions xs ps).
Proof.
  unfold take_positions.
  induction 1 as [|p ps Hp _ [IHl IHf]]; cbn [flat_map].
  - split; [reflexivity|constructor].
  - destruct (nth_error xs p) as [x|] eqn:Hx.
    2:{ apply nth_error_None in Hx. lia. }
    cbn [app List.length]. split; [now rewrite IHl|].
    constructor; [now apply (nth_error_In _ _ Hx)|exact IHf].
Qed.

Section SamplingFacts.

Variable choice : nat -> nat -> list nat.

(** What the generator guarantees: [n] different positions below [size],
    whenever [n] does not exceed [size]. *)
Hypothesis choice_ok :
  forall size n,
    n <= size ->
    List.length (choice size n) = n
    /\ NoDup (choice size n)
    /\ Forall (fun p => p < size) (choice size n).

(** X21. [get_random] clamps the count to [1,50]: with at least that
    many non-null titles in the table it returns exactly that many, all
    of them stored titles taken from different rows of the title column;
    with fewer it raises. *)
Theorem X21_get_random (eng : Engine) (count : Z) :
  let n := Z.to_nat (clamp 1 50 count) in
  let pool := dropna (titles eng) in
  1 <= n <= 50
  /\ (List.length pool < n -> get_random choice eng count = ValueError)
  /\ (n <= List.length pool ->
      exists positions,
        get_random choice eng count = Ok (take_positions pool positions)
        /\ NoDup positions
        /\ List.length (take_positions pool positions) = n
        /\ Forall (fun t => In (Some t) (titles eng))
                  (take_positions pool positions)).
Proof.
  intros n pool.
  pose proof (clamp_range 1 50 count ltac:(lia)) as Hc.
  split; [unfold n; lia|]. unfold get_random, sample. fold pool. fold n.
  split.
  - intros Hlt. apply Nat.ltb_lt in Hlt. now rewrite Hlt.
  - intros Hle. destruct (Nat.ltb_spec (List.length pool) n) as [|_]; [lia|].
    destruct (choice_ok (List.length pool) n Hle) as [Hlen [Hnd Hrange]].
    destruct (take_positions_spec pool _ Hrange) as [Hl Hf].
    exists (choice (List.length pool) n).
    repeat split; auto; [congruence|].
    eapply Forall_impl; [|exact Hf]. intros t. apply dropna_In.
Qed.

(** X22. The [/random] handler clamps the count to [1,20] instead; its
    answer carries the number of titles drawn, which is the clamped
    count, and raises when the table has fewer non-null titles. *)
Theorem X22_random_endpoint (eng : Engine) (count : Z) :
  let n := Z.to_nat (clamp 1 20 count) in
  let pool := dropna (titles eng) in
  1 <= n <= 20
  /\ (List.length pool < n -> random_anime choice eng count = ValueError)
  /\ (n <= List.length pool ->
      exists random_titles,
        random_anime choice eng count = Ok (n, random_titles)
        /\ List.length random_titles = n
        /\ Forall (fun t => In (Some t) (titles eng)) random_titles).
Proof.
  intros n pool.
  pose proof (clamp_range 1 20 count ltac:(lia)) as Hc.
  split; [unfold n; lia|]. unfold random_anime, sample. fold pool. fold n.
  split.
  - intros Hlt. apply Nat.ltb_lt in Hlt. now rewrite Hlt.
  - intros Hle. destruct (Nat.ltb_spec (List.length pool) n) as [|_]; [lia|].
    destruct (choice_ok (List.length pool) n Hle) as [Hlen [Hnd Hrange]].
    destruct (take_positions_spec pool _ Hrange) as [Hl Hf].
    exists (take_positions pool (choice (List.length pool) n)).
    split; [f_equal; f_equal; congruence|].
    split; [congruence|].
    eapply Forall_impl; [|exact Hf]. intros t. apply dropna_In.
Qed.

End SamplingFacts.

(** ** The further statements on concrete data *)

Lemma first_positions_ok (size n : nat) :
  n <= size ->
  List.length (first_positions size n) = n
  /\ NoDup (first_positions size n)
  /\ Forall (fun p => p < size) (first_positions size n).
Proof.
  intros Hle. unfold first_positions. split; [apply length_seq|].
  split; [apply seq_NoDup|].
  rewrite Forall_forall. intros p Hp. apply in_seq in Hp. lia.
Qed.

Lemma X1_score_bucket_witness :
  py_float text_float_unused (score bebop_row) = Some (Fin (17 # 2)%Q)
  /\ (8 <= 17 # 2)%Q
  /\ tags_score text_float_unused bebop_row [] = [] ++ ["highly_rated"].
Proof.
  split; [reflexivity|]. split; [discriminate|].
  apply (proj1 (X1_score_bucket text_float_unused bebop_row []) (17 # 2)%Q);
    [reflexivity|discriminate].
Defined.

Lemma X2_era_bucket_witness :
  aired bebop_row = Some "2015"
  /\ first_year false "2015" = Some 2015%Z
  /\ (1900 <= 2015 <= 2099)%Z
  /\ exists tok : string,
       tags_era bebop_row [] = [] ++ [tok]
       /\ ((2020 <= 2015)%Z -> tok = "recent_anime")
       /\ ((2010 <= 2015 <= 2019)%Z -> tok = "modern_era")
       /\ ((2000 <= 2015 <= 2009)%Z -> tok = "early_2000s")
       /\ ((2015 <= 1999)%Z -> tok = "classic_anime").
Proof.
  split; [reflexivity|]. split; [reflexivity|].
  apply (proj1 (X2_era_bucket bebop_row []) "2015" 2015%Z); reflexivity.
Defined.

Lemma X7_exact_match_first_witness :
  count_occ title_eq_dec (titles demo_engine) (Some "Naruto") = 1
  /\ exists i, nth_error (titles demo_engine) i = Some (Some "Naruto")
               /\ resolve demo_engine "Naruto" = Some (Scalar i).
Proof.
  split; [reflexivity|].
  apply (X7_exact_match_first demo_engine "Naruto"). reflexivity.
Defined.

Lemma X8_case_variants_raise_witness :
  ~ In (Some "ONE PIECE") (titles demo_engine)
  /\ 1 < count_occ title_eq_dec (map (option_map lower) (titles demo_engine))
                   (Some (lower "ONE PIECE"))
  /\ recommend demo_engine "ONE PIECE" 5 = ValueError.
Proof.
  assert (H1 : ~ In (Some "ONE PIECE") (titles demo_engine)).
  { cbn. intros H. repeat (destruct H as [H|H]; [discriminate H|]). exact H. }
  assert (H2 : 1 < count_occ title_eq_dec
                     (map (option_map lower) (titles demo_engine))
                     (Some (lower "ONE PIECE"))) by (vm_compute; lia).
  split; [exact H1|]. split; [exact H2|].
  apply (X8_case_variants_raise demo_engine "ONE PIECE" 5 H1 H2).
Defined.

Lemma X9_resolved_row_witness :
  resolve demo_engine "NARUTO" = Some (Scalar 1)
  /\ 1 < List.length (df demo_engine)
  /\ exists t', nth_error (titles demo_engine) 1 = Some (Some t')
                /\ lower t' = lower "NARUTO"
                /\ count_occ title_eq_dec (titles demo_engine) (Some t') = 1
                /\ (In (Some "NARUTO") (titles demo_engine) -> t' = "NARUTO").
Proof.
  split; [reflexivity|].
  apply (X9_resolved_row demo_engine "NARUTO" 1). reflexivity.
Defined.

Lemma X11_nonpositive_limit_witness :
  resolve demo_engine "Naruto" = Some (Scalar 1)
  /\ (0 <= 0)%Z
  /\ exists recs,
       recommend demo_engine "Naruto" 0 = Ok recs
       /\ List.length recs = distinct_count (other_titles demo_engine 1)
       /\ NoDup (map rec_title recs).
Proof.
  split; [reflexivity|]. split; [lia|].
  apply (X11_nonpositive_limit demo_engine "Naruto" 1 0); [reflexivity|lia].
Defined.

Lemma X12_limit_prefix_witness :
  (0 < 1 <= 3)%Z
  /\ recommend demo_engine "Naruto" 1
     = result_map (firstn (Z.to_nat 1)) (recommend demo_engine "Naruto" 3).
Proof.
  split; [lia|]. apply (X12_limit_prefix demo_engine "Naruto" 1 3). lia.
Defined.

Lemma X13_recommend_order_witness :
  resolve demo_engine "Naruto" = Some (Scalar 1)
  /\ exists picks : list (nat * Rec),
       recommend_rows demo_engine 1 3 = Ok picks
       /\ recommend demo_engine "Naruto" 3 = Ok (map snd picks)
       /\ StronglySorted
            (fun p q => (sim demo_engine 1 (fst q)
                         <= sim demo_engine 1 (fst p))%Q)
            picks
       /\ StronglySorted
            (fun p q => (decimal4 (sim demo_engine 1 (fst q))
                         <= decimal4 (sim demo_engine 1 (fst p)))%Q)
            picks
       /\ Forall (fun p =>
                    exists row,
                      nth_error (df demo_engine) (fst p) = Some row
                      /\ snd p = make_rec row (sim demo_engine 1 (fst p))
                      /\ rec_title (snd p) = title row
                      /\ rec_genre (snd p) = genre row
                      /\ rec_type (snd p) = type_ row
                      /\ rec_source (snd p) = source row
                      /\ rec_similarity (snd p)
                         = nearest_double
                             (decimal4 (sim demo_engine 1 (fst p)))
                      /\ (sim demo_engine 1 (fst p) - (1 # 20000)
                          <= decimal4 (sim demo_engine 1 (fst p)))%Q
                      /\ (decimal4 (sim demo_engine 1 (fst p))
                          <= sim demo_engine 1 (fst p) + (1 # 20000))%Q)
                 picks.
Proof.
  split; [reflexivity|].
  apply (X13_recommend_order demo_engine "Naruto" 1 3). reflexivity.
Defined.

Lemma X14_search_nonpositive_limit_witness :
  (0 <= 0)%Z
  /\ search_titles demo_engine "one" 0
     = firstn 1 (filter (fun t => contains (lower t) (lower "one"))
                        (dropna (titles demo_engine)))
  /\ List.length (search_titles demo_engine "one" 0) <= 1.
Proof.
  split; [lia|]. apply (X14_search_nonpositive_limit demo_engine "one" 0). lia.
Defined.

Lemma X15_search_empty_query_witness :
  (0 < 2)%Z
  /\ search_titles demo_engine "" 2
     = firstn (Z.to_nat 2) (dropna (titles demo_engine)).
Proof.
  split; [lia|]. apply (X15_search_empty_query demo_engine 2). lia.
Defined.

Lemma X16_search_substring_witness :
  (0 < 10)%Z
  /\ Forall (fun t => exists pre post,
                        lower t = (pre ++ lower "one" ++ post)%string)
            (search_titles demo_engine "one" 10)
  /\ ((Z.of_nat (List.length (dropna (titles demo_engine))) <= 10)%Z ->
      (forall t pre post,
          In (Some t) (titles demo_engine) ->
          lower t = (pre ++ lower "one" ++ post)%string ->
          In t (search_titles demo_engine "one" 10))
      /\ (In (Some "one") (titles demo_engine) ->
          In "one" (search_titles demo_engine "one" 10))).
Proof.
  split; [lia|]. apply (X16_search_substring demo_engine "one" 10). lia.
Defined.

Lemma X17_recommend_endpoint_witness :
  "Naruto" <> ""
  /\ resolve demo_engine "Naruto" = Some (Scalar 1)
  /\ 0 < distinct_count (other_titles demo_engine 1)
  /\ exists recs,
       recommend demo_engine "Naruto" (clamp 1 50 1000) = Ok recs
       /\ List.length recs
          = Nat.min (Z.to_nat (clamp 1 50 1000))
                    (distinct_count (other_titles demo_engine 1))
       /\ 1 <= List.length recs <= 50
       /\ get_recommendations encodes_all demo_engine (Some "Naruto") 1000
          = (if encodes_all recs
             then RecFound "Naruto" (List.length recs) recs
             else RecServerError).
Proof.
  assert (Hne : "Naruto" <> "") by discriminate.
  split; [exact Hne|]. split; [reflexivity|].
  split; [vm_compute; lia|].
  apply (proj2 (proj2 (proj2 (proj2
           (X17_recommend_endpoint encodes_all demo_engine "Naruto" 1000))
           Hne)) 1 eq_refl).
  vm_compute. lia.
Defined.

Lemma X18_info_endpoint_witness :
  "One Piece" <> ""
  /\ (info demo_engine (Some "One Piece") = InfoNotFound
      <-> resolve demo_engine "One Piece" = None)
  /\ (forall index,
         resolve demo_engine "One Piece" = Some (Scalar index) ->
         exists row, nth_error (df demo_engine) index = Some row
                     /\ info demo_engine (Some "One Piece")
                        = InfoFound (info_dict row))
  /\ (In (Some "One Piece") (titles demo_engine) ->
      exists i row,
        nth_error (df demo_engine) i = Some row
        /\ title row = Some "One Piece"
        /\ (forall j row', j < i -> nth_error (df demo_engine) j = Some row' ->
                           title row' <> Some "One Piece")
        /\ info demo_engine (Some "One Piece") = InfoFound (info_dict row)).
Proof.
  assert (Hne : "One Piece" <> "") by discriminate.
  split; [exact Hne|].
  apply (X18_info_endpoint demo_engine "One Piece" Hne).
Defined.

Lemma X19_search_endpoint_witness :
  "ONE" <> ""
  /\ exists results,
       search demo_engine (Some "ONE") 0
       = SearchFound (lower "ONE") (List.length results) results
       /\ results = search_titles demo_engine "ONE" (clamp 1 100 0)
       /\ List.length results <= 100
       /\ Forall (fun t => In (Some t) (titles demo_engine)
                           /\ contains (lower t) (lower "ONE") = true)
                 results.
Proof.
  assert (Hne : "ONE" <> "") by discriminate.
  split; [exact Hne|].
  apply (proj2 (proj2 (X19_search_endpoint demo_engine "ONE" 0)) Hne).
Defined.

Lemma X21_get_random_witness :
  (forall size n,
      n <= size ->
      List.length (first_positions size n) = n
      /\ NoDup (first_positions size n)
      /\ Forall (fun p => p < size) (first_positions size n))
  /\ 3 <= List.length (dropna (titles demo_engine))
  /\ exists positions,
       get_random first_positions demo_engine 3
       = Ok (take_positions (dropna (titles demo_engine)) positions)
       /\ NoDup positions
       /\ List.length (take_positions (dropna (titles demo_engine)) positions)
          = 3
       /\ Forall (fun t => In (Some t) (titles demo_engine))
                 (take_positions (dropna (titles demo_engine)) positions).
Proof.
  split; [exact first_positions_ok|]. split; [vm_compute; lia|].
  apply (proj2 (proj2 (X21_get_random first_positions first_positions_ok
                         demo_engine 3))).
  vm_compute. lia.
Defined.

Lemma X22_random_endpoint_witness :
  (forall size n,
      n <= size ->
      List.length (first_positions size n) = n
      /\ NoDup (first_positions size n)
      /\ Forall (fun p => p < size) (first_positions size n))
  /\ List.length (dropna (titles demo_engine)) < 20
  /\ random_anime first_positions demo_engine 1000 = ValueError.
Proof.
  split; [exact first_positions_ok|]. split; [vm_compute; lia|].
  apply (proj1 (proj2 (X22_random_endpoint first_positions first_positions_ok
                         demo_engine 1000))).
  vm_compute. lia.
Defined.
